(** * sftpgw: a write-only SFTP gateway in front of S3

    A shallow embedding of the gateway's core (path guard, upload buffering,
    command dispatch, authentication, S3 key derivation, connection
    supervisor, configuration loader, channel handling) together with the
    properties its specification states (Part II) and further properties
    of the code (Part III).

    Go strings are byte strings: they are modelled as [string] (a list of
    8-bit [ascii] characters).  Go [[]byte] is [list byte].  Go [int64] is
    [Z] with the wrap-around of the addition written out ([wrap64]). *)

From Stdlib Require Import ZArith Ascii String List Bool Lia.
From Stdlib.Strings Require Import Byte.
From stdpp Require Import base list strings gmap.

Local Open Scope string_scope.
Local Open Scope Z_scope.
Local Open Scope list_scope.
Local Open Scope stdpp_scope.

(* ===================================================================== *)
(** * Part I. Definitions                                                 *)
(* ===================================================================== *)

(** ** The parts of Go's [strings] package the gateway calls *)

Module GoStrings.

(** [strings.HasPrefix(s, prefix)]. *)
Fixpoint HasPrefix (s prefix : string) {struct prefix} : bool :=
  match prefix with
  | EmptyString => true
  | String p prefix' =>
      match s with
      | EmptyString => false
      | String c s' => Ascii.eqb c p && HasPrefix s' prefix'
      end
  end.


(** [strings.Contains(s, substr)]: [substr] occurs at some position. *)
Fixpoint Contains (s substr : string) : bool :=
  HasPrefix s substr ||
  match s with
  | EmptyString => false
  | String _ s' => Contains s' substr
  end.

(** The scan of [strings.ReplaceAll] for a non-empty [old]: matches are
    found left to right and do not overlap.  [skip] counts the bytes of
    the match found last that are still to be passed over. *)
Fixpoint replaceFrom (old new : string) (skip : nat) (s : string) : string :=
  match s with
  | EmptyString => EmptyString
  | String c s' =>
      match skip with
      | S k => replaceFrom old new k s'
      | O =>
          if HasPrefix s old
          then new +:+ replaceFrom old new (Nat.pred (String.length old)) s'
          else String c (replaceFrom old new O s')
      end
  end.

(** [strings.ReplaceAll(s, old, new)].  The gateway calls it with the
    patterns " " and ".." only; an empty [old] (Go then inserts [new]
    around every rune) does not occur and is left as the identity. *)
Definition ReplaceAll (s old new : string) : string :=
  match old with
  | EmptyString => s
  | String _ _ => replaceFrom old new O s
  end.

End GoStrings.

(** ** The parts of Go's [path/filepath] package the gateway calls (Unix:
       the separator is '/', volume names are empty) *)

Module GoPath.
Import GoStrings.

Definition Separator : ascii := "/"%char.

(** [strings.Split(s, "/")]: the elements between separators, at least one. *)
Fixpoint splitSlash (s : string) : list string :=
  match s with
  | EmptyString => [EmptyString]
  | String c s' =>
      if Ascii.eqb c Separator then EmptyString :: splitSlash s'
      else match splitSlash s' with
           | e :: es => String c e :: es
           | [] => [String c EmptyString]
           end
  end.

(** [strings.Join(elems, "/")]. *)
Fixpoint joinSlash (elems : list string) : string :=
  match elems with
  | [] => EmptyString
  | [e] => e
  | e :: es => e +:+ String Separator (joinSlash es)
  end.

(** The non-empty path elements of a path. *)
Definition elems (s : string) : list string :=
  List.filter (fun e => negb (String.eqb e "")) (splitSlash s).

(** [filepath.IsAbs] on Unix. *)
Definition IsAbs (path : string) : bool := HasPrefix path "/".

(** The element loop of [filepath.Clean].  [out] is the output buffer as
    a stack of elements, last written first.  An empty element and "."
    are dropped; ".." removes the last written element when there is one
    to backtrack over (one that is not itself a leading ".."), is dropped
    at the root of a rooted path, and is kept otherwise. *)
Fixpoint cleanElems (rooted : bool) (es : list string) (out : list string)
  : list string :=
  match es with
  | [] => out
  | e :: rest =>
      if String.eqb e "" || String.eqb e "." then cleanElems rooted rest out
      else if String.eqb e ".." then
        match out with
        | top :: out' =>
            if negb (String.eqb top "..") then cleanElems rooted rest out'
            else if negb rooted then cleanElems rooted rest (".." :: out)
            else cleanElems rooted rest out
        | [] =>
            if negb rooted then cleanElems rooted rest [".."]
            else cleanElems rooted rest []
        end
      else cleanElems rooted rest (e :: out)
  end.

(** [filepath.Clean]: the shortest equivalent path.  A rooted path keeps
    its leading separator; an empty result is ".". *)
Definition Clean (path : string) : string :=
  let rooted := HasPrefix path "/" in
  let body := joinSlash (rev (cleanElems rooted (splitSlash path) [])) in
  if rooted then "/" +:+ body
  else if String.eqb body "" then "." else body.

(** Trailing separators removed (the first loop of [filepath.Base]). *)
Fixpoint stripTrailingSlashes (s : string) : string :=
  match s with
  | EmptyString => EmptyString
  | String c s' =>
      let r := stripTrailingSlashes s' in
      if Ascii.eqb c Separator && String.eqb r "" then EmptyString
      else String c r
  end.

(** [filepath.Base]: the last element of the path; "." for the empty
    path and "/" for a path of separators only. *)
Definition Base (path : string) : string :=
  if String.eqb path "" then "."
  else
    let path := stripTrailingSlashes path in
    let path := List.last (splitSlash path) EmptyString in
    if String.eqb path "" then "/" else path.

(** The common leading elements of base and target removed (the loop of
    [filepath.Rel] that positions both at the first differing element). *)
Fixpoint dropCommon (bs ts : list string) : list string * list string :=
  match bs, ts with
  | b :: bs', t :: ts' =>
      if String.eqb t b then dropCommon bs' ts' else (bs, ts)
  | _, _ => (bs, ts)
  end.

(** [filepath.Rel(basepath, targpath)]: [None] is the error result.  Both
    paths are cleaned; equal paths give "."; a rooted and an unrooted path
    cannot be related; otherwise one ".." per remaining base element is
    followed by the remaining target elements. *)
Definition Rel (basepath targpath : string) : option string :=
  let base := Clean basepath in
  let targ := Clean targpath in
  if String.eqb targ base then Some "."
  else
    let base := if String.eqb base "." then "" else base in
    if negb (Bool.eqb (HasPrefix base "/") (HasPrefix targ "/")) then None
    else
      match dropCommon (elems base) (elems targ) with
      | (b :: bs, t :: ts) =>
          if String.eqb b ".." then None
          else Some (joinSlash (List.map (fun _ => "..") (b :: bs) ++ t :: ts))
      | (b :: bs, []) => Some (joinSlash (List.map (fun _ => "..") (b :: bs)))
      | ([], ts) => Some (joinSlash ts)
      end.

End GoPath.

(** ** Configuration (config.go) *)

Record Config := mkConfig {
  ServerPort : Z;
  VirtualDir : string;
  MaxFileSize : Z;
  S3Bucket : string;
  S3BucketPrefix : string;
  S3Region : string;
  RequiredAccountID : string;
  MaxConnections : Z
}.

(** [LoadConfig] cleans the virtual directory and forces it absolute. *)
Definition normalizeVirtualDir (vdir : string) : string :=
  let vdir := GoPath.Clean vdir in
  if negb (GoPath.IsAbs vdir) then "/" +:+ vdir else vdir.

(** ** The path guard (sftp_handler.go, [SFTPHandler.isPathAllowed]) *)

Definition isPathAllowed (config : Config) (path : string) : bool :=
  let cleanPath := GoPath.Clean path in
  let cleanPath :=
    if negb (GoPath.IsAbs cleanPath) then "/" +:+ cleanPath else cleanPath in
  match GoPath.Rel (VirtualDir config) cleanPath with
  | None => false
  | Some relPath => negb (GoStrings.HasPrefix relPath "..")
  end.

(** ** Errors and results *)

(** Go's [error] values: the sentinels of package [os], an error made from
    a message alone ([fmt.Errorf] without [%w]), and an error that wraps a
    cause ([fmt.Errorf("msg: %w", err)]). *)
Inductive error :=
| ErrPermission
| ErrInvalid
| ErrClosed
| errorString (msg : string)
| wrapError (msg : string) (cause : error).

(** The outcome of a call: a value, an error, or a run-time panic. *)
Inductive result (A : Type) :=
| Ok (a : A)
| Err (e : error)
| Panic (msg : string).
Arguments Ok {A} a.
Arguments Err {A} e.
Arguments Panic {A} msg.

(** ** Time (the part of package [time] the uploader uses)

    A [Time] is a civil time in UTC ([t.UTC()] is then the identity). *)

Record Time := mkTime {
  year : Z; month : Z; day : Z; hour : Z; minute : Z; second : Z
}.

Module GoTime.

Definition UTC (t : Time) : Time := t.

Definition digit (n : Z) : ascii := ascii_of_nat (48 + Z.to_nat (n mod 10)).

(** Zero-padded decimal fields of width 2 and 4 (Go's [appendInt] for a
    value of at most that many digits, which every field of the clock of
    a running server is). *)
Definition pad2 (n : Z) : string :=
  String (digit (n / 10)) (String (digit n) EmptyString).
Definition pad4 (n : Z) : string :=
  String (digit (n / 1000)) (String (digit (n / 100)) (pad2 n)).

Inductive Layout := DateOnly | RFC3339.

(** [t.Format(layout)] for the two layouts in use: "2006-01-02" and
    [time.RFC3339] (whose zone of a UTC time is "Z"). *)
Definition Format (t : Time) (layout : Layout) : string :=
  let date := pad4 (year t) +:+ "-" +:+ pad2 (month t) +:+ "-" +:+ pad2 (day t) in
  match layout with
  | DateOnly => date
  | RFC3339 =>
      date +:+ "T" +:+ pad2 (hour t) +:+ ":" +:+ pad2 (minute t) +:+ ":"
           +:+ pad2 (second t) +:+ "Z"
  end.

End GoTime.

(** ** The AWS SDK at its call boundary *)

(** [credentials.NewStaticCredentialsProvider(key, secret, session)]. *)
Record StaticCredentialsProvider := NewStaticCredentialsProvider {
  credAccessKeyID : string;
  credSecretAccessKey : string;
  credSessionToken : string
}.

(** The options handed to [config.LoadDefaultConfig]: the credentials
    provider and, when a region is configured, [config.WithRegion]. *)
Record LoadOptions := mkLoadOptions {
  optCredentials : StaticCredentialsProvider;
  optRegion : option string
}.

Record PutObjectInput := mkPutObjectInput {
  Bucket : string;
  Key : string;
  Body : list byte;
  Metadata : gmap string string
}.

(** [sts.GetCallerIdentityOutput]; [Account] is a [*string]. *)
Record GetCallerIdentityOutput := mkIdentity {
  Account : option string;
  UserId : option string;
  Arn : option string
}.

(** The answers of the SDK and of the services behind it. *)
Record AWS := mkAWS {
  LoadDefaultConfig : LoadOptions -> option error;
  GetCallerIdentity : LoadOptions -> error + GetCallerIdentityOutput;
  PutObject : LoadOptions -> PutObjectInput -> option error
}.

(** A request sent to a service. *)
Inductive Call :=
| STSGetCallerIdentity (cfg : LoadOptions)
| S3PutObject (cfg : LoadOptions) (input : PutObjectInput).

Definition withRegion (region : string) : option string :=
  if negb (String.eqb region "") then Some region else None.

(** ** The uploader (the [S3Uploader] that [main] constructs) *)

Record S3Uploader := mkS3Uploader {
  bucket : string;
  bucketPrefix : string;
  region : string;
  timeFunc : unit -> Time
}.

Definition NewS3Uploader (bucket bucketPrefix region : string) (now : unit -> Time)
  : S3Uploader :=
  mkS3Uploader bucket bucketPrefix region now.

(** The filename of [generateS3Key] before sanitization: the base name of
    the path, or the placeholder. *)
Definition keyFilename (filePath : string) : string :=
  let filename := GoPath.Base filePath in
  if String.eqb filename "" || String.eqb filename "." || String.eqb filename "/"
  then "unknown" else filename.

(** The two replacements of [generateS3Key]. *)
Definition sanitize (filename : string) : string :=
  let sanitizedFilename := GoStrings.ReplaceAll filename " " "_" in
  GoStrings.ReplaceAll sanitizedFilename ".." "_".

Definition generateS3Key (u : S3Uploader) (filePath : string) : string :=
  let timestamp := GoTime.Format (GoTime.UTC (timeFunc u tt)) GoTime.DateOnly in
  let sanitizedFilename := sanitize (keyFilename filePath) in
  if negb (String.eqb (bucketPrefix u) "")
  then bucketPrefix u +:+ "/" +:+ timestamp +:+ "/" +:+ sanitizedFilename
  else timestamp +:+ "/" +:+ sanitizedFilename.

(** [S3Uploader.UploadFile]: the error returned and the calls made. *)
Definition UploadFile (aws : AWS) (u : S3Uploader)
    (accessKeyID secretAccessKey clientIP filePath : string) (data : list byte)
  : option error * list Call :=
  let cfg := mkLoadOptions
               (NewStaticCredentialsProvider accessKeyID secretAccessKey "")
               (withRegion (region u)) in
  match LoadDefaultConfig aws cfg with
  | Some err => (Some (wrapError "failed to configure AWS client" err), [])
  | None =>
      let key := generateS3Key u filePath in
      let input := mkPutObjectInput (bucket u) key data
        (<["client-ip" := clientIP]>
         (<["access-key-id" := accessKeyID]>
          (<["upload-time" := GoTime.Format (GoTime.UTC (timeFunc u tt)) GoTime.RFC3339]>
           (<["original-path" := filePath]> ∅)))) in
      match PutObject aws cfg input with
      | Some err =>
          (Some (wrapError "failed to upload to S3" err), [S3PutObject cfg input])
      | None => (None, [S3PutObject cfg input])
      end
  end.

(** ** The authenticator *)

(** [net.Addr]: a TCP address (its IP already rendered) or any other. *)
Inductive Addr :=
| TCPAddr (ip : string) (port : Z)
| OtherAddr (s : string).

Definition getClientIP (addr : Addr) : string :=
  match addr with
  | TCPAddr ip _ => ip
  | OtherAddr s => s
  end.

(** [ssh.ConnMetadata]: the user name and the remote address. *)
Record ConnMetadata := mkConn { User : string; RemoteAddr : Addr }.

Record Permissions := mkPermissions { Extensions : gmap string string }.

Record Authenticator := NewAuthenticator {
  requiredAccountID : string;
  authRegion : string
}.

Definition Authenticate (aws : AWS) (a : Authenticator) (conn : ConnMetadata)
    (password : list byte) : result Permissions * list Call :=
  let clientIP := getClientIP (RemoteAddr conn) in
  let accessKeyID := User conn in
  let secretAccessKey := string_of_list_byte password in
  if String.eqb accessKeyID "" || String.eqb secretAccessKey ""
  then (Err (errorString "credentials cannot be empty"), [])
  else
    let cfg := mkLoadOptions
                 (NewStaticCredentialsProvider accessKeyID secretAccessKey "")
                 (withRegion (authRegion a)) in
    match LoadDefaultConfig aws cfg with
    | Some _ => (Err (errorString "invalid credentials"), [])
    | None =>
        match GetCallerIdentity aws cfg with
        | inl _ => (Err (errorString "invalid credentials"), [STSGetCallerIdentity cfg])
        | inr res =>
            match Account res with
            | None => (Err (errorString "invalid credentials"), [STSGetCallerIdentity cfg])
            | Some accountID =>
                if negb (String.eqb accountID (requiredAccountID a))
                then (Err (errorString "unauthorized account"), [STSGetCallerIdentity cfg])
                else
                  (Ok (mkPermissions
                         (<["aws_access_key_id" := accessKeyID]>
                          (<["aws_secret_access_key" := secretAccessKey]>
                           (<["aws_account_id" := accountID]>
                            (<["client_ip" := clientIP]> ∅))))),
                   [STSGetCallerIdentity cfg])
            end
        end
    end.

(** ** The handler state (sftp_handler.go)

    [*FileUpload] and [*FileWriter] are addresses into two heaps, so that
    the registry [activeUploads] (a [sync.Map] from path to [*FileUpload])
    and the writers refer to uploads by identity.  The mutex of an upload
    is not modelled: every operation below is one atomic step.  Logging is
    left out. *)

Definition addr := nat.

Record FileUpload := mkFileUpload {
  data : list byte;
  path : string;
  clientIP : string;
  accessKey : string;
  secretKey : string
}.

Record FileWriter := mkFileWriter {
  upload : addr;
  closed : bool
}.

Record Store := mkStore {
  uploads : gmap addr FileUpload;
  writers : gmap addr FileWriter;
  activeUploads : gmap string addr;
  calls : list Call
}.

Definition emptyStore : Store := mkStore ∅ ∅ ∅ [].

Record SFTPHandler := NewSFTPHandler {
  config : Config;
  uploader : S3Uploader
}.

(** [sftp.Request]: the method, the path and the string values of its
    context. *)
Record Request := mkRequest {
  Method : string;
  Filepath : string;
  Context : gmap string string
}.

(** [v, _ := r.Context().Value(key).(string)]: the zero value when absent. *)
Definition contextValue (r : Request) (key : string) : string :=
  default "" (Context r !! key).

(** Go's [int64] addition wraps around. *)
Definition wrap64 (z : Z) : Z := (z + 2 ^ 63) mod 2 ^ 64 - 2 ^ 63.
Definition maxInt64 : Z := 2 ^ 63 - 1.

(** [make([]byte, n)]: [n] zero bytes. *)
Definition make (n : Z) : list byte := replicate (Z.to_nat n) x00.

(** [copy(dst, src)]: the first [min(len(dst), len(src))] bytes of [dst]
    overwritten; the result is the new content of [dst]. *)
Definition copy (dst src : list byte) : list byte :=
  take (length dst) src ++ drop (length src) dst.

Definition nilDereference : string :=
  "invalid memory address or nil pointer dereference".

(** The allocation [&FileUpload{data: make([]byte, 0, MaxFileSize), ...}]
    and registration that both [Filewrite] methods perform. *)
Definition storeUpload (up : FileUpload) (st : Store) : addr * Store :=
  let u := fresh (dom (uploads st)) in
  let w := fresh (dom (writers st)) in
  (w, mkStore (<[u := up]> (uploads st))
              (<[w := mkFileWriter u false]> (writers st))
              (<[path up := u]> (activeUploads st))
              (calls st)).

(** [SFTPHandler.Filewrite]: the writer returned, and the store after. *)
Definition Filewrite (h : SFTPHandler) (r : Request) (st : Store)
  : result addr * Store :=
  let clientIP := contextValue r "client_ip" in
  let accessKey := contextValue r "access_key_id" in
  let secretKey := contextValue r "secret_access_key" in
  if negb (isPathAllowed (config h) (Filepath r)) then (Err ErrPermission, st)
  else if MaxFileSize (config h) <? 0
  then (Panic "makeslice: cap out of range", st)
  else
    let upload := mkFileUpload [] (Filepath r) clientIP accessKey secretKey in
    let '(w, st') := storeUpload upload st in
    (Ok w, st').

(** [SFTPHandler.Filecmd]: [None] is the nil error. *)
Definition Filecmd (h : SFTPHandler) (r : Request) : option error :=
  if String.eqb (Method r) "Remove" then Some ErrPermission
  else if String.eqb (Method r) "Rename" then Some ErrPermission
  else if String.eqb (Method r) "Mkdir" then None
  else if String.eqb (Method r) "Rmdir" then Some ErrPermission
  else if String.eqb (Method r) "Setstat" then None
  else Some ErrInvalid.


(** The buffer after the body of [WriteAt] on an open writer, and what the
    call returns.  [endPos] is an [int64]. *)
Definition writeBuffer (maxFileSize : Z) (data p : list byte) (off : Z)
  : result Z * list byte :=
  let endPos := wrap64 (off + Z.of_nat (length p)) in
  if endPos >? maxFileSize
  then (Err (errorString "file too large"), data)
  else
    let data :=
      if Z.of_nat (length data) <? endPos then copy (make endPos) data else data in
    (* data[off:] needs 0 <= off <= len(data) *)
    if (off <? 0) || (Z.of_nat (length data) <? off)
    then (Panic "slice bounds out of range", data)
    else
      (Ok (Z.of_nat (length p)),
       take (Z.to_nat off) data ++ copy (drop (Z.to_nat off) data) p).

(** [FileWriter.WriteAt]. *)
Definition WriteAt (h : SFTPHandler) (fw : addr) (p : list byte) (off : Z)
    (st : Store) : result Z * Store :=
  match writers st !! fw with
  | None => (Panic nilDereference, st)
  | Some w =>
      match uploads st !! upload w with
      | None => (Panic nilDereference, st)
      | Some up =>
          if closed w then (Err ErrClosed, st)
          else
            let '(r, data') := writeBuffer (MaxFileSize (config h)) (data up) p off in
            let up' := mkFileUpload data' (path up) (clientIP up)
                                    (accessKey up) (secretKey up) in
            (r, mkStore (<[upload w := up']> (uploads st)) (writers st)
                        (activeUploads st) (calls st))
      end
  end.

(** [FileWriter.Close]: the error returned ([None] is nil) and the store
    after.  The first call marks the writer closed, hands the buffer to
    the uploader and (deferred) deletes the registry entry of the path. *)
Definition Close (aws : AWS) (h : SFTPHandler) (fw : addr) (st : Store)
  : result (option error) * Store :=
  match writers st !! fw with
  | None => (Panic nilDereference, st)
  | Some w =>
      match uploads st !! upload w with
      | None => (Panic nilDereference, st)
      | Some up =>
          if closed w then (Ok None, st)
          else
            let '(err, made) :=
              UploadFile aws (uploader h) (accessKey up) (secretKey up)
                         (clientIP up) (path up) (data up) in
            let st' := mkStore (uploads st)
                               (<[fw := mkFileWriter (upload w) true]> (writers st))
                               (delete (path up) (activeUploads st))
                               (calls st ++ made) in
            match err with
            | Some e => (Ok (Some (wrapError "upload failed" e)), st')
            | None => (Ok None, st')
            end
      end
  end.

(** ** The per-session handler (the handlers [handleSFTP] registers) *)

Record SessionSFTPHandler := mkSessionSFTPHandler {
  handler : SFTPHandler;
  sessClientIP : string;
  accessKeyID : string;
  secretAccessKey : string;
  accountID : string
}.

(** [permissions.Extensions[key]]: the zero value when absent. *)
Definition extension (p : Permissions) (key : string) : string :=
  default "" (Extensions p !! key).

(** [SFTPServer.handleSFTP] up to the request server: the session handler
    it builds, or nothing when the connection carries no permissions. *)
Definition handleSFTP (h : SFTPHandler) (remote : Addr)
    (permissions : option Permissions) : option SessionSFTPHandler :=
  let clientIP := getClientIP remote in
  match permissions with
  | None => None
  | Some permissions =>
      let accessKeyID := extension permissions "aws_access_key_id" in
      let secretAccessKey := extension permissions "aws_secret_access_key" in
      let accountID := extension permissions "aws_account_id" in
      Some (mkSessionSFTPHandler h clientIP accessKeyID secretAccessKey accountID)
  end.

(** [SessionSFTPHandler.Filewrite]: the upload is built before the path is
    checked. *)
Definition SessionFilewrite (h : SessionSFTPHandler) (r : Request) (st : Store)
  : result addr * Store :=
  if MaxFileSize (config (handler h)) <? 0
  then (Panic "makeslice: cap out of range", st)
  else
    let upload := mkFileUpload [] (Filepath r) (sessClientIP h)
                               (accessKeyID h) (secretAccessKey h) in
    if negb (isPathAllowed (config (handler h)) (Filepath r))
    then (Err ErrPermission, st)
    else
      let '(w, st') := storeUpload upload st in
      (Ok w, st').

(** [SessionSFTPHandler.Filecmd]. *)
Definition SessionFilecmd (h : SessionSFTPHandler) (r : Request) : option error :=
  if String.eqb (Method r) "Remove" then Some ErrPermission
  else if String.eqb (Method r) "Rename" then Some ErrPermission
  else if String.eqb (Method r) "Mkdir" then None
  else if String.eqb (Method r) "Rmdir" then Some ErrPermission
  else if String.eqb (Method r) "Setstat" then None
  else Some ErrInvalid.

(** ** The connection supervisor ([SFTPServer.acceptConnections] and
       [handleConnection])

    The accept loop and the connection goroutines are modelled as a
    transition system over the events that drive them.  [activeConns] is
    the counter of the [sync.WaitGroup]; [serving] are the connections
    whose [handleConnection] goroutine has started and not returned. *)

Definition Conn := nat.

Record SFTPServer := mkSFTPServer {
  serverConfig : Config;
  activeConns : Z;
  serving : list Conn;
  cancelled : bool
}.

Inductive Event :=
| Accepted (c : Conn)      (* listener.Accept() returned a connection *)
| AcceptFailed             (* listener.Accept() returned an error *)
| Returned (c : Conn)      (* handleConnection(c) returned *)
| Cancel.                  (* the context was cancelled *)

(** One turn of the loop of [acceptConnections] on what [Accept] returned. *)
Definition acceptConnections (s : SFTPServer) (accepted : option Conn) : SFTPServer :=
  if cancelled s then s
  else
    match accepted with
    | None => s
    | Some conn =>
        (* s.activeConns.Add(1); go s.handleConnection(ctx, conn) *)
        mkSFTPServer (serverConfig s) (activeConns s + 1) (conn :: serving s)
                     (cancelled s)
    end.

(** The deferred calls of [handleConnection]: [conn.Close()] and
    [s.activeConns.Done()]. *)
Definition handleConnectionReturn (s : SFTPServer) (conn : Conn) : SFTPServer :=
  mkSFTPServer (serverConfig s) (activeConns s - 1)
               (List.filter (fun c => negb (Nat.eqb c conn)) (serving s))
               (cancelled s).

Definition step (s : SFTPServer) (e : Event) : SFTPServer :=
  match e with
  | Accepted c => acceptConnections s (Some c)
  | AcceptFailed => acceptConnections s None
  | Returned c => if bool_decide (c ∈ serving s) then handleConnectionReturn s c else s
  | Cancel => mkSFTPServer (serverConfig s) (activeConns s) (serving s) true
  end.

Definition run (s : SFTPServer) (es : list Event) : SFTPServer :=
  fold_left step es s.

(** ** The parts of Go's [strconv] package the configuration calls

    The binary is built for amd64 (the Dockerfile sets GOARCH), so [int]
    has 64 bits and [Atoi] accepts what [ParseInt(s, 10, 64)] accepts. *)

Module GoStrconv.

(** [strconv.ErrSyntax] and [strconv.ErrRange]. *)
Definition ErrSyntax : error := errorString "invalid syntax".
Definition ErrRange : error := errorString "value out of range".

(** [&NumError{Func, Num, Err}]: an error that unwraps to [Err].  (Go
    renders [Num] quoted in the message.) *)
Definition NumError (Func Num : string) (Err : error) : error :=
  wrapError ("strconv." +:+ Func +:+ ": parsing " +:+ Num) Err.

Definition maxUint64 : Z := 2 ^ 64 - 1.

(** The digit loop of [ParseUint(s, 10, 64)], [n] being the value read so
    far: a byte that is no decimal digit is a syntax error, and the first
    digit that takes the value beyond 64 bits a range error. *)
Fixpoint parseUint (s : string) (n : Z) : error + Z :=
  match s with
  | EmptyString => inr n
  | String c s' =>
      let d := Z.of_nat (nat_of_ascii c) - 48 in
      if (0 <=? d) && (d <=? 9) then
        if n >=? maxUint64 / 10 + 1 then inl ErrRange
        else
          let n1 := n * 10 + d in
          if n1 >? maxUint64 then inl ErrRange else parseUint s' n1
      else inl ErrSyntax
  end.

(** [ParseInt(s, 10, 64)], reporting errors under the name [Func]: an
    optional sign, then at least one digit; the value must fit [int64]. *)
Definition parseInt (Func s : string) : error + Z :=
  match s with
  | EmptyString => inl (NumError Func s ErrSyntax)
  | String c rest =>
      let neg := Ascii.eqb c "-" in
      let body := if Ascii.eqb c "+" || neg then rest else s in
      match (if String.eqb body "" then inl ErrSyntax else parseUint body 0) with
      | inl err => inl (NumError Func s err)
      | inr un =>
          if negb neg && (un >=? 2 ^ 63) then inl (NumError Func s ErrRange)
          else if neg && (un >? 2 ^ 63) then inl (NumError Func s ErrRange)
          else inr (if neg then - un else un)
      end
  end.

Definition ParseInt (s : string) : error + Z := parseInt "ParseInt" s.

(** [strconv.Atoi]; its fast path for short strings reads the same
    syntax and cannot overflow. *)
Definition Atoi (s : string) : error + Z := parseInt "Atoi" s.

End GoStrconv.

(** ** Loading the configuration (config.go, [LoadConfig])

    The environment of the process is a map from names to values;
    [os.Getenv] gives the empty string for a name that is not set. *)

Definition Getenv (env : gmap string string) (key : string) : string :=
  default "" (env !! key).

(** The three [time.Duration] fields of the struct [Config], in
    nanoseconds.  (The record [Config] above holds the other fields.) *)
Record Timeouts := mkTimeouts {
  ConnectionTimeout : Z;
  ReadTimeout : Z;
  WriteTimeout : Z
}.

Definition Second : Z := 1000000000.

(** The pattern [LoadConfig] repeats for a parsed variable:
    [if v := os.Getenv(K); v != "" { if x, err := parse(v); err != nil
    { return nil, fmt.Errorf(msg + ": %w", err) } else { field = x } }];
    [field] is the value the field had before. *)
Definition setting {A : Type} (v : string) (parse : string -> error + A)
    (msg : string) (field : A) : error + A :=
  if negb (String.eqb v "") then
    match parse v with
    | inl err => inl (wrapError msg err)
    | inr x => inr x
    end
  else inr field.

(** [LoadConfig].  [time.ParseDuration] computes fractions in floating
    point; it is a parameter here. *)
Definition LoadConfig (ParseDuration : string -> error + Z)
    (env : gmap string string) : error + Config * Timeouts :=
  match setting (Getenv env "SFTP_PORT") GoStrconv.Atoi "invalid SFTP_PORT" 2222 with
  | inl err => inl err
  | inr port =>
  let vdir := Getenv env "VIRTUAL_DIR" in
  let virtualDir := if negb (String.eqb vdir "") then vdir else "/uploads" in
  let virtualDir := normalizeVirtualDir virtualDir in
  match setting (Getenv env "MAX_FILE_SIZE") GoStrconv.ParseInt "invalid MAX_FILE_SIZE"
                (1024 * 1024) with
  | inl err => inl err
  | inr maxFileSize =>
  let bucket := Getenv env "S3_BUCKET" in
  if String.eqb bucket ""
  then inl (errorString "S3_BUCKET environment variable is required")
  else
  let prefix := Getenv env "S3_BUCKET_PREFIX" in
  let region := Getenv env "AWS_REGION" in
  let accountID := Getenv env "AWS_ACCOUNT_ID" in
  if String.eqb accountID ""
  then inl (errorString "AWS_ACCOUNT_ID environment variable is required")
  else
  match setting (Getenv env "CONNECTION_TIMEOUT") ParseDuration
                "invalid CONNECTION_TIMEOUT" (30 * Second) with
  | inl err => inl err
  | inr connectionTimeout =>
  match setting (Getenv env "READ_TIMEOUT") ParseDuration
                "invalid read_TIMEOUT" (30 * Second) with
  | inl err => inl err
  | inr readTimeout =>
  match setting (Getenv env "WRITE_TIMEOUT") ParseDuration
                "invalid WRITE_TIMEOUT" (30 * Second) with
  | inl err => inl err
  | inr writeTimeout =>
  match setting (Getenv env "MAX_CONNECTIONS") GoStrconv.Atoi
                "invalid MAX_CONNECTIONS" 100 with
  | inl err => inl err
  | inr maxConnections =>
      inr (mkConfig port virtualDir maxFileSize bucket prefix region accountID
                    maxConnections,
           mkTimeouts connectionTimeout readTimeout writeTimeout)
  end end end end end end.

(** ** What [SFTPServer.Run] builds from the configuration

    [now] is [time.Now], the clock [NewS3Uploader] installs. *)

Definition runUploader (config : Config) (now : unit -> Time) : S3Uploader :=
  NewS3Uploader (S3Bucket config) (S3BucketPrefix config) (S3Region config) now.

Definition runHandler (config : Config) (now : unit -> Time) : SFTPHandler :=
  NewSFTPHandler config (runUploader config now).

Definition runAuth (config : Config) : Authenticator :=
  NewAuthenticator (RequiredAccountID config) (S3Region config).

(** ** Channels and their requests ([SFTPServer.handleConnection] and
       [handleChannel]) *)

(** [ssh.Request]: its type and payload. *)
Record sshRequest := mkSSHRequest {
  ReqType : string;
  Payload : list byte
}.

(** How [handleChannel] ends: it called [handleSFTP] and returned (the
    session handler that was served, if the connection had permissions),
    or the requests ran out. *)
Inductive ChannelEnd :=
| ServedSFTP (session : option SessionSFTPHandler)
| RequestsClosed.

(** [handleChannel]: the calls [req.Reply(ok, nil)] in order, and how it
    ends.  [req.Payload[4:]] panics on a payload of fewer than four
    bytes. *)
Fixpoint handleChannel (h : SFTPHandler) (remote : Addr)
    (permissions : option Permissions) (requests : list sshRequest)
  : list bool * result ChannelEnd :=
  match requests with
  | [] => ([], Ok RequestsClosed)
  | req :: rest =>
      if String.eqb (ReqType req) "subsystem" then
        if (length (Payload req) <? 4)%nat
        then ([], Panic "slice bounds out of range")
        else if String.eqb (string_of_list_byte (drop 4 (Payload req))) "sftp"
        then ([true], Ok (ServedSFTP (handleSFTP h remote permissions)))
        else
          let '(replies, r) := handleChannel h remote permissions rest in
          (false :: replies, r)
      else
        let '(replies, r) := handleChannel h remote permissions rest in
        (false :: replies, r)
  end.

(** [ssh.NewChannel]: the channel type, and what [Accept] returns (the
    requests that then arrive on the channel). *)
Record NewChannel := mkNewChannel {
  ChannelType : string;
  Accept : error + list sshRequest
}.

(** What [handleConnection] does with a new channel. *)
Inductive ChannelAction :=
| Rejected                 (* Reject(ssh.UnknownChannelType, ...) *)
| NotAccepted              (* Accept() failed *)
| Handled (replies : list bool) (r : result ChannelEnd).  (* go handleChannel(...) *)

(** The channel loop of [handleConnection], and its beginning: nothing
    is done on a connection whose handshake fails.  [handshake] is what
    [ssh.NewServerConn] returns: an error, or the permissions of the
    connection and its channels. *)
Definition handleConnection (h : SFTPHandler) (remote : Addr)
    (handshake : error + option Permissions * list NewChannel)
  : list ChannelAction :=
  match handshake with
  | inl _ => []
  | inr (permissions, chans) =>
      List.map
        (fun newChannel =>
           if negb (String.eqb (ChannelType newChannel) "session") then Rejected
           else
             match Accept newChannel with
             | inl _ => NotAccepted
             | inr requests =>
                 let '(replies, r) := handleChannel h remote permissions requests in
                 Handled replies r
             end)
        chans
  end.

(** ** The uploader of s3uploader.go

    An earlier [S3Uploader], without prefix, region and clock of its own:
    its [generateS3Key] reads [time.Now()] ([now] below is that reading).
    [main] builds the uploader modelled above. *)

Module Legacy.

Record S3Uploader := NewS3Uploader {
  bucket : string
}.

(** [t.Format("2006/01/02/15-04-05")]. *)
Definition formatStamp (t : Time) : string :=
  GoTime.pad4 (year t) +:+ "/" +:+ GoTime.pad2 (month t) +:+ "/" +:+ GoTime.pad2 (day t)
    +:+ "/" +:+ GoTime.pad2 (hour t) +:+ "-" +:+ GoTime.pad2 (minute t)
    +:+ "-" +:+ GoTime.pad2 (second t).

(** [generateS3Key(filePath, clientIP, accessKeyID)]; the file name is
    chosen and sanitized by the same statements as in the later version
    ([keyFilename], [sanitize]). *)
Definition generateS3Key (now : Time) (u : S3Uploader)
    (filePath clientIP accessKeyID : string) : string :=
  let timestamp := formatStamp (GoTime.UTC now) in
  let sanitizedFilename := sanitize (keyFilename filePath) in
  timestamp +:+ "/" +:+ clientIP +:+ "/" +:+ accessKeyID +:+ "/" +:+ sanitizedFilename.

End Legacy.

(* ===================================================================== *)
(** * Part I, continued. The notions of the specification                 *)
(* ===================================================================== *)

(** What follows is not code of the gateway: these are the notions its
    specification speaks in, which the properties of Part II relate to
    the definitions above, and the inputs the examples run on. *)

(** ** Inputs of the examples *)

(** The configuration of the repository's tests. *)
Definition testConfig (vdir : string) : Config :=
  mkConfig 2222 vdir 1024 "test-bucket" "" "" "123456789012" 100.

Definition demoHandler : SFTPHandler :=
  NewSFTPHandler (testConfig "/uploads")
    (NewS3Uploader "test-bucket" "" "" (fun _ => mkTime 2023 12 25 10 30 0)).

Definition demoSession : SessionSFTPHandler :=
  mkSessionSFTPHandler demoHandler "127.0.0.1" "test-key" "test-secret" "123456789012".

(** Services that accept every request and know the account of the tests. *)
Definition demoAWS : AWS :=
  mkAWS (fun _ => None)
        (fun _ => inr (mkIdentity (Some "123456789012") None None))
        (fun _ _ => None).

Definition demoConn : ConnMetadata := mkConn "test-key" (TCPAddr "127.0.0.1" 50000).

(** The store after the demo session opened /uploads/a.txt: writer 0 on
    upload 0. *)
Definition demoStore : Store :=
  snd (SessionFilewrite demoSession (mkRequest "Put" "/uploads/a.txt" ∅) emptyStore).

Definition demoUpload : FileUpload :=
  mkFileUpload [] "/uploads/a.txt" "127.0.0.1" "test-key" "test-secret".

(** Three writes, as (offset, bytes): the third overlaps the first, and
    positions 3 and 4 stay a gap. *)
Definition demoWrites : list (Z * list byte) :=
  [(0, [x01; x02; x03]); (5, [x09]); (1, [x07; x08])].

(** ** Storage keys *)

(** The directory part of a key: the bucket prefix when one is configured,
    then the date. *)
Definition keyDirectory (u : S3Uploader) : string :=
  let date := GoTime.Format (GoTime.UTC (timeFunc u tt)) GoTime.DateOnly in
  if String.eqb (bucketPrefix u) "" then date +:+ "/"
  else bucketPrefix u +:+ "/" +:+ date +:+ "/".

Definition isDigit (c : ascii) : bool :=
  (48 <=? nat_of_ascii c)%nat && (nat_of_ascii c <=? 57)%nat.




(** ** Authentication *)

(** The failures of the specification and the errors that carry them. *)
Inductive AuthFailure := empty_credentials | invalid_credentials | unauthorized_tenant.

Definition authError (f : AuthFailure) : error :=
  errorString match f with
              | empty_credentials => "credentials cannot be empty"
              | invalid_credentials => "invalid credentials"
              | unauthorized_tenant => "unauthorized account"
              end.

(** The session a successful authentication binds. *)
Definition session (conn : ConnMetadata) (password : list byte) (accountID : string)
  : Permissions :=
  mkPermissions
    (<["aws_access_key_id" := User conn]>
     (<["aws_secret_access_key" := string_of_list_byte password]>
      (<["aws_account_id" := accountID]>
       (<["client_ip" := getClientIP (RemoteAddr conn)]> ∅)))).

(** What the delegate is asked with: the presented pair, nothing else. *)
Definition presented (a : Authenticator) (conn : ConnMetadata) (password : list byte)
  : LoadOptions :=
  mkLoadOptions
    (NewStaticCredentialsProvider (User conn) (string_of_list_byte password) "")
    (withRegion (authRegion a)).

(** ** The registry and the life of a writer *)


(** What may happen to the store between the opening of a writer and its
    close: any session opens a write, any writer is written to or closed. *)
Inductive Op :=
| OpFilewrite (sh : SessionSFTPHandler) (r : Request)
| OpWriteAt (fw : addr) (p : list byte) (off : Z)
| OpClose (fw : addr).

Definition exec (aws : AWS) (h : SFTPHandler) (st : Store) (op : Op) : Store :=
  match op with
  | OpFilewrite sh r => snd (SessionFilewrite sh r st)
  | OpWriteAt fw p off => snd (WriteAt h fw p off st)
  | OpClose fw => snd (Close aws h fw st)
  end.

Definition execAll (aws : AWS) (h : SFTPHandler) (st : Store) (ops : list Op) : Store :=
  fold_left (exec aws h) ops st.

(** The writer [w] writes to an upload that carries the pair [key],
    [secret]. *)
Definition carries (key secret : string) (w : addr) (st : Store) : Prop :=
  exists fw up,
    writers st !! w = Some fw /\
    uploads st !! upload fw = Some up /\
    accessKey up = key /\ secretKey up = secret.

(** An upload with another buffer, and a store with another upload at an
    address. *)
Definition withData (up : FileUpload) (d : list byte) : FileUpload :=
  mkFileUpload d (path up) (clientIP up) (accessKey up) (secretKey up).

Definition putUpload (st : Store) (u : addr) (up : FileUpload) : Store :=
  mkStore (<[u := up]> (uploads st)) (writers st) (activeUploads st) (calls st).

(** The calls [WriteAt(p, off)] for the writes [ws], in order: what they
    return and the store after the last. *)
Fixpoint writeSeq (h : SFTPHandler) (fw : addr) (ws : list (Z * list byte))
    (st : Store) : list (result Z) * Store :=
  match ws with
  | [] => ([], st)
  | (off, p) :: rest =>
      let '(r, st1) := WriteAt h fw p off st in
      let '(rs, st2) := writeSeq h fw rest st1 in
      (r :: rs, st2)
  end.

(** The options [UploadFile] loads the SDK configuration with. *)
Definition uploadOptions (h : SFTPHandler) (up : FileUpload) : LoadOptions :=
  mkLoadOptions (NewStaticCredentialsProvider (accessKey up) (secretKey up) "")
                (withRegion (region (uploader h))).

(** ** The upload buffer *)

(** The size error of [WriteAt]. *)
Definition tooLarge : error := errorString "file too large".

(** The buffer grown with zero bytes to [e] bytes, and [p] put at [o]. *)
Definition extend (e : nat) (data : list byte) : list byte :=
  if (length data <? e)%nat then data ++ replicate (e - length data) x00 else data.

Definition overwrite (o : nat) (p data : list byte) : list byte :=
  take o data ++ p ++ drop (o + length p) data.

(** The byte that the writes [ws] (in the order of the calls) leave at
    position [i]: that of the last write that covers [i]. *)
Fixpoint lastWrite (ws : list (Z * list byte)) (i : nat) : option byte :=
  match ws with
  | [] => None
  | (off, p) :: rest =>
      match lastWrite rest i with
      | Some b => Some b
      | None => if (Z.to_nat off <=? i)%nat then p !! (i - Z.to_nat off)%nat else None
      end
  end.

(** The length of a buffer of [n] bytes after the writes: the largest end
    position. *)
Fixpoint extent (n : nat) (ws : list (Z * list byte)) : nat :=
  match ws with
  | [] => n
  | (off, p) :: rest => extent (max n (Z.to_nat off + length p)) rest
  end.

(** The expected buffer: inside the extent, the last write that covers
    the position wins; a position no write covers keeps its old byte, and
    is zero when the old buffer did not reach it. *)
Definition expected (data : list byte) (ws : list (Z * list byte)) (i : nat)
  : option byte :=
  if (i <? extent (length data) ws)%nat
  then Some (default (default x00 (data !! i)) (lastWrite ws i))
  else None.

(** A write the specification speaks of: the offset is not negative and
    the end is within the maximum file size. *)
Definition inBounds (maxFileSize : Z) (w : Z * list byte) : Prop :=
  0 <= w.1 /\ w.1 + Z.of_nat (length w.2) <= maxFileSize.

(** The writes applied to a buffer in order; [None] when one fails. *)
Fixpoint writeAll (maxFileSize : Z) (data : list byte) (ws : list (Z * list byte))
  : option (list byte) :=
  match ws with
  | [] => Some data
  | (off, p) :: rest =>
      match writeBuffer maxFileSize data p off with
      | (Ok _, data') => writeAll maxFileSize data' rest
      | _ => None
      end
  end.

(** No buffer of the store is longer than the maximum file size. *)
Definition bounded (h : SFTPHandler) (st : Store) : Prop :=
  forall u up, uploads st !! u = Some up ->
    Z.of_nat (length (data up)) <= MaxFileSize (config h).

(** ** Paths and the virtual root *)

(** The path the guard relates to the root: cleaned, a separator put in
    front when it is not absolute, and cleaned again (by [filepath.Rel]). *)
Definition canonical (path : string) : string :=
  let cleanPath := GoPath.Clean path in
  GoPath.Clean (if negb (GoPath.IsAbs cleanPath) then "/" +:+ cleanPath else cleanPath).

(** A path resolves inside the root when the elements of the root are
    the first elements of the path in canonical form. *)
Definition insideRoot (config : Config) (path : string) : Prop :=
  GoPath.elems (GoPath.Clean (VirtualDir config)) `prefix_of`
  GoPath.elems (canonical path).

(** No separator among the bytes. *)
Fixpoint noSlash (s : string) : bool :=
  match s with
  | EmptyString => true
  | String c s' => negb (Ascii.eqb c GoPath.Separator) && noSlash s'
  end.

(** A proper path element: not empty, not "." or "..", no separator. *)
Definition properElem (e : string) : Prop :=
  e <> "" /\ e <> "." /\ e <> ".." /\ noSlash e = true.

(** ** The environment and the configuration *)

(** A variable that [LoadConfig] can use: empty (or not set), or a text
    its parser accepts. *)
Definition usable {A : Type} (parse : string -> error + A) (v : string) : Prop :=
  v = "" \/ exists x, parse v = inr x.

(** The value of a parsed variable in a configuration: the default for
    an empty variable, and what the parser gives otherwise. *)
Definition valueOf {A : Type} (parse : string -> error + A) (v : string)
    (default x : A) : Prop :=
  if String.eqb v "" then x = default else parse v = inr x.

(** What [time.ParseDuration] answers on the durations of the
    repository's tests. *)
Definition demoDuration (s : string) : error + Z :=
  if String.eqb s "60s" then inr (60 * Second)
  else if String.eqb s "45s" then inr (45 * Second)
  else if String.eqb s "90s" then inr (90 * Second)
  else inl (errorString "time: invalid duration").

(** The environment of the test for custom values. *)
Definition demoEnv : gmap string string :=
  list_to_map
    [("S3_BUCKET", "custom-bucket"); ("S3_BUCKET_PREFIX", "uploads/sftp");
     ("AWS_REGION", "us-west-2"); ("AWS_ACCOUNT_ID", "987654321098");
     ("SFTP_PORT", "2223"); ("VIRTUAL_DIR", "/custom-uploads");
     ("MAX_FILE_SIZE", "5242880"); ("CONNECTION_TIMEOUT", "60s");
     ("READ_TIMEOUT", "45s"); ("WRITE_TIMEOUT", "90s"); ("MAX_CONNECTIONS", "50")].

(** The configuration and the timeouts [LoadConfig] gives for it. *)
Definition demoConfig : Config :=
  mkConfig 2223 "/custom-uploads" 5242880 "custom-bucket" "uploads/sftp" "us-west-2"
           "987654321098" 50.

Definition demoTimeouts : Timeouts :=
  mkTimeouts (60 * Second) (45 * Second) (90 * Second).

(** ** The stores the handler reaches *)

(** A store is well formed when every writer writes to an upload that
    exists, no two writers write to the same upload, every registry entry
    is an upload that exists and has the path it is registered under, and
    no registered upload belongs to a closed writer. *)
Definition wellFormed (st : Store) : Prop :=
  (forall w fw, writers st !! w = Some fw -> is_Some (uploads st !! upload fw)) /\
  (forall w1 w2 fw1 fw2,
     writers st !! w1 = Some fw1 -> writers st !! w2 = Some fw2 ->
     upload fw1 = upload fw2 -> w1 = w2) /\
  (forall p u, activeUploads st !! p = Some u ->
     exists up, uploads st !! u = Some up /\ path up = p) /\
  (forall p w fw,
     activeUploads st !! p = Some (upload fw) -> writers st !! w = Some fw ->
     closed fw = false).

(** The writer [w] is closed (and its upload exists). *)
Definition isClosed (w : addr) (st : Store) : Prop :=
  exists fw,
    writers st !! w = Some fw /\ closed fw = true /\
    is_Some (uploads st !! upload fw).

(** A call of the handler's uploader: an object put into its bucket, in
    its region, under the key derived from the path of an upload. *)
Definition uploadCall (h : SFTPHandler) (call : Call) : Prop :=
  exists cfg input filePath,
    call = S3PutObject cfg input /\
    Bucket input = bucket (uploader h) /\
    Key input = generateS3Key (uploader h) filePath /\
    Metadata input !! "original-path" = Some filePath /\
    optRegion cfg = withRegion (region (uploader h)).

(** The number of closes among operations. *)
Definition closes (ops : list Op) : nat :=
  length (List.filter (fun op => match op with OpClose _ => true | _ => false end) ops).

(** ** Channel requests *)

(** A request names the SFTP subsystem when its type is "subsystem" and
    its payload, after the first four bytes, is "sftp". *)
Definition asksSFTP (req : sshRequest) : bool :=
  String.eqb (ReqType req) "subsystem" &&
  (4 <=? length (Payload req))%nat &&
  String.eqb (string_of_list_byte (drop 4 (Payload req))) "sftp".

(** A subsystem request whose payload has fewer than four bytes. *)
Definition tooShort (req : sshRequest) : bool :=
  String.eqb (ReqType req) "subsystem" && (length (Payload req) <? 4)%nat.

(** Any other request: [handleChannel] refuses it and reads on. *)
Definition passedOver (req : sshRequest) : bool :=
  negb (asksSFTP req) && negb (tooShort req).

(** The payload of a subsystem request for [name]: the length of the
    name in four bytes (the name is short), then the name. *)
Definition subsystemPayload (name : string) : list byte :=
  [x00; x00; x00; default x00 (Byte.of_nat (String.length name))]
    ++ list_byte_of_string name.

(** The permissions of the examples, and a connection that opens one
    session channel and asks for the SFTP subsystem on it. *)
Definition demoPermissions : Permissions :=
  session demoConn [x73; x33] "123456789012".

Definition demoHandshake : error + option Permissions * list NewChannel :=
  inr (Some demoPermissions,
       [mkNewChannel "direct-tcpip" (inr []);
        mkNewChannel "session"
          (inr [mkSSHRequest "env" []; mkSSHRequest "subsystem" (subsystemPayload "sftp")])]).

(** ** The connections of the supervisor *)

(** The connections that [Accept] returns in a sequence of events. *)
Definition acceptedConns (es : list Event) : list Conn :=
  omap (fun e => match e with Accepted c => Some c | _ => None end) es.

(* ===================================================================== *)
(** * Part II. Properties                                                 *)
(* ===================================================================== *)

(** The table of [TestSFTPHandler_isPathAllowed] holds of the model. *)
Example isPathAllowed_test_table :
  let c := testConfig "/uploads" in
  isPathAllowed c "/uploads/file.txt" = true /\
  isPathAllowed c "/uploads/subfolder/file.txt" = true /\
  isPathAllowed c "/uploads" = true /\
  isPathAllowed c "/uploads/../etc/passwd" = false /\
  isPathAllowed c "/etc/passwd" = false /\
  isPathAllowed c "/uploads/../../etc/passwd" = false /\
  isPathAllowed c "/" = false /\
  isPathAllowed c "" = false /\
  isPathAllowed c "/uploads/my..file.txt" = true /\
  isPathAllowed c "/uploads_other/file.txt" = false.
Proof. vm_compute. repeat split. Qed.

Example isPathAllowed_test_custom :
  let c := testConfig "/custom/upload/path" in
  isPathAllowed c "/custom/upload/path/file.txt" = true /\
  isPathAllowed c "/custom/upload/other/file.txt" = false /\
  isPathAllowed c "/uploads/file.txt" = false.
Proof. vm_compute. repeat split. Qed.

(** ** Replacement and containment of substrings *)

Section StringLemmas.
Import GoStrings.

Lemma HasPrefix_nil s : HasPrefix s "" = true.
Proof. by destruct s. Qed.

Lemma Contains_cons c s sub :
  Contains (String c s) sub = HasPrefix (String c s) sub || Contains s sub.
Proof. reflexivity. Qed.

Lemma replaceFrom_absent old new s :
  Contains s old = false -> replaceFrom old new O s = s.
Proof.
  induction s as [|c s IH]; [done|].
  rewrite Contains_cons. intros [Hp Hc]%orb_false_iff.
  cbn [replaceFrom]. rewrite Hp. by rewrite IH.
Qed.

Lemma ReplaceAll_absent s old new :
  Contains s old = false -> ReplaceAll s old new = s.
Proof. destruct old; [done|]. apply replaceFrom_absent. Qed.

Lemma replace_space_clean s :
  Contains (ReplaceAll s " " "_") " " = false.
Proof.
  unfold ReplaceAll. induction s as [|c s IH]; [done|].
  cbn [replaceFrom HasPrefix]. rewrite andb_true_r.
  destruct (Ascii.eqb_spec c " ") as [->|Hc].
  - cbn. exact IH.
  - rewrite Contains_cons. cbn [HasPrefix]. rewrite andb_true_r.
    apply Ascii.eqb_neq in Hc. by rewrite Hc.
Qed.

Lemma replace_dots_keeps_clean s k :
  Contains s " " = false -> Contains (replaceFrom ".." "_" k s) " " = false.
Proof.
  revert k. induction s as [|c s IH]; intros k; [by destruct k|].
  rewrite Contains_cons. intros [Hp Hc]%orb_false_iff.
  destruct k as [|k]; cbn [replaceFrom]; [|by apply IH].
  destruct (HasPrefix (String c s) "..").
  - cbn. by apply IH.
  - rewrite Contains_cons. cbn [HasPrefix] in *. rewrite Hp. by apply IH.
Qed.

Lemma HasPrefix_cons c s p q :
  HasPrefix (String c s) (String p q) = Ascii.eqb c p && HasPrefix s q.
Proof. reflexivity. Qed.

Lemma replace_dots_spec s :
  Contains (replaceFrom ".." "_" 0 s) ".." = false /\
  Contains (replaceFrom ".." "_" 1 s) ".." = false /\
  (HasPrefix (replaceFrom ".." "_" 0 s) "." = true ->
   HasPrefix s "." = true /\ HasPrefix s ".." = false).
Proof.
  induction s as [|c s (IHa & IHb & IHc)]; [done|].
  split_and!.
  - cbn [replaceFrom]. destruct (HasPrefix (String c s) "..") eqn:Hm.
    + change (Contains (String "_" (replaceFrom ".." "_" 1 s)) ".." = false).
      by rewrite Contains_cons, IHb.
    + rewrite Contains_cons, IHa, orb_false_r.
      rewrite HasPrefix_cons in Hm |- *.
      destruct (Ascii.eqb c ".") eqn:Hc; [|done].
      destruct (HasPrefix (replaceFrom ".." "_" 0 s) ".") eqn:Hd; [|done].
      destruct (IHc eq_refl) as [Hs _]. by rewrite Hs in Hm.
  - exact IHa.
  - cbn [replaceFrom]. destruct (HasPrefix (String c s) "..") eqn:Hm; [by cbn|].
    rewrite HasPrefix_cons. intros [Hc _]%andb_true_iff.
    split; [|done]. by rewrite HasPrefix_cons, Hc, HasPrefix_nil.
Qed.

Lemma replace_dots_clean s : Contains (ReplaceAll s ".." "_") ".." = false.
Proof. apply replace_dots_spec. Qed.
End StringLemmas.

(** ** Key derivation (C8, C9) *)

Section KeyLemmas.
Import GoStrings.

Lemma append_cons x (a b : string) : String x a +:+ b = String x (a +:+ b).
Proof. reflexivity. Qed.

Lemma append_nil_l (a : string) : "" +:+ a = a.
Proof. reflexivity. Qed.

Lemma append_assoc (a b c : string) : (a +:+ b) +:+ c = a +:+ b +:+ c.
Proof. induction a as [|x a IH]; [done|]. by rewrite !append_cons, IH. Qed.


Lemma sanitize_no_space name : Contains (sanitize name) " " = false.
Proof.
  unfold sanitize. apply replace_dots_keeps_clean, replace_space_clean.
Qed.

Lemma sanitize_no_dotdot name : Contains (sanitize name) ".." = false.
Proof. unfold sanitize. apply replace_dots_clean. Qed.

Lemma sanitize_fixed name :
  Contains name " " = false -> Contains name ".." = false -> sanitize name = name.
Proof.
  intros Hs Hd. unfold sanitize. rewrite (ReplaceAll_absent name " ") by done.
  by apply ReplaceAll_absent.
Qed.

Lemma sanitize_idempotent name : sanitize (sanitize name) = sanitize name.
Proof. apply sanitize_fixed; [apply sanitize_no_space | apply sanitize_no_dotdot]. Qed.
End KeyLemmas.

Lemma generateS3Key_split u filePath :
  generateS3Key u filePath = keyDirectory u +:+ sanitize (keyFilename filePath).
Proof.
  unfold generateS3Key, keyDirectory.
  destruct (String.eqb (bucketPrefix u) ""); cbn [negb];
    by rewrite !append_assoc.
Qed.

(** C8.  The file-name segment of every derived key (the key is the key
    directory followed by that segment) contains no space and no "..";
    sanitizing a sanitized name changes nothing, and a name without space
    and ".." is left as it is; the paths "", "." and "/" get the
    placeholder "unknown" as their segment. *)
Theorem generateS3Key_sanitized (u : S3Uploader) (filePath name : string) :
  let segment := sanitize (keyFilename filePath) in
  generateS3Key u filePath = keyDirectory u +:+ segment /\
  GoStrings.Contains segment " " = false /\
  GoStrings.Contains segment ".." = false /\
  sanitize (sanitize name) = sanitize name /\
  (GoStrings.Contains name " " = false ->
   GoStrings.Contains name ".." = false -> sanitize name = name) /\
  generateS3Key u "" = keyDirectory u +:+ "unknown" /\
  generateS3Key u "." = keyDirectory u +:+ "unknown" /\
  generateS3Key u "/" = keyDirectory u +:+ "unknown".
Proof.
  cbv zeta. split_and!.
  - apply generateS3Key_split.
  - apply sanitize_no_space.
  - apply sanitize_no_dotdot.
  - apply sanitize_idempotent.
  - apply sanitize_fixed.
  - by rewrite generateS3Key_split.
  - by rewrite generateS3Key_split.
  - by rewrite generateS3Key_split.
Qed.

(** ** The shape of the date *)

Lemma digit_isDigit n : isDigit (GoTime.digit n) = true.
Proof.
  unfold GoTime.digit.
  assert (Z.to_nat (n mod 10) < 10)%nat as Hk
    by (pose proof (Z.mod_pos_bound n 10); lia).
  destruct (Z.to_nat (n mod 10)) as [|[|[|[|[|[|[|[|[|[|k]]]]]]]]]]; try done; lia.
Qed.


Example Format_christmas :
  GoTime.Format (mkTime 2023 12 25 10 30 0) GoTime.DateOnly = "2023-12-25" /\
  GoTime.Format (mkTime 2023 12 25 10 30 0) GoTime.RFC3339 = "2023-12-25T10:30:00Z".
Proof. by vm_compute. Qed.

(** ** The key as the specification composes it *)


(** The keys the repository's tests expect. *)
Example generateS3Key_tests :
  let now := fun _ : unit => mkTime 2023 12 25 10 30 0 in
  let plain := NewS3Uploader "test-bucket" "" "" now in
  let prefixed := NewS3Uploader "test-bucket" "uploads/sftp" "" now in
  generateS3Key plain "/uploads/test.txt" = "2023-12-25/test.txt" /\
  generateS3Key (NewS3Uploader "test-bucket" "sftp-uploads" "" now) "/uploads/test.txt"
    = "sftp-uploads/2023-12-25/test.txt" /\
  generateS3Key plain "/uploads/my file.txt" = "2023-12-25/my_file.txt" /\
  generateS3Key plain "/uploads/../../../etc/passwd" = "2023-12-25/passwd" /\
  generateS3Key plain "/uploads/my file..name with spaces.txt"
    = "2023-12-25/my_file_name_with_spaces.txt" /\
  generateS3Key prefixed "/uploads/." = "uploads/sftp/2023-12-25/unknown" /\
  generateS3Key prefixed "/uploads/" = "uploads/sftp/2023-12-25/uploads" /\
  generateS3Key prefixed "/uploads/.." = "uploads/sftp/2023-12-25/_" /\
  generateS3Key prefixed "/uploads/..." = "uploads/sftp/2023-12-25/_.".
Proof. vm_compute. repeat split. Qed.

(** ** Authentication (C7) *)

Lemma eqb_empty_or (x y : string) :
  String.eqb x "" || String.eqb y "" = true <-> x = "" \/ y = "".
Proof. rewrite orb_true_iff, !String.eqb_eq. tauto. Qed.

(** C7.  [Authenticate] fails with the empty-credentials failure exactly
    when the identifier or the secret is empty, and then no call is made;
    a failure of the delegate (loading its configuration, the call itself)
    and an answer without account become the invalid-credentials failure,
    whatever the underlying error; an account other than the required one
    (string equality) is the unauthorized failure, and the required account
    gives the session. *)
Theorem Authenticate_outcomes (aws : AWS) (a : Authenticator)
    (conn : ConnMetadata) (password : list byte) :
  let id := User conn in
  let secret := string_of_list_byte password in
  let cfg := presented a conn password in
  let r := Authenticate aws a conn password in
  (fst r = Err (authError empty_credentials) <-> id = "" \/ secret = "") /\
  (id = "" \/ secret = "" -> snd r = []) /\
  (forall e, ~ (id = "" \/ secret = "") -> LoadDefaultConfig aws cfg = Some e ->
     r = (Err (authError invalid_credentials), [])) /\
  (~ (id = "" \/ secret = "") -> LoadDefaultConfig aws cfg = None ->
     snd r = [STSGetCallerIdentity cfg] /\
     (forall e, GetCallerIdentity aws cfg = inl e ->
        fst r = Err (authError invalid_credentials)) /\
     (forall out, GetCallerIdentity aws cfg = inr out -> Account out = None ->
        fst r = Err (authError invalid_credentials)) /\
     (forall out accountID,
        GetCallerIdentity aws cfg = inr out -> Account out = Some accountID ->
        (accountID <> requiredAccountID a ->
           fst r = Err (authError unauthorized_tenant)) /\
        (accountID = requiredAccountID a ->
           fst r = Ok (session conn password accountID)))).
Proof.
  cbv zeta. unfold Authenticate, presented.
  destruct (String.eqb (User conn) "" || String.eqb (string_of_list_byte password) "")
    eqn:Hempty.
  - apply eqb_empty_or in Hempty. cbn [fst snd]. split_and!; try done.
  - assert (~ (User conn = "" \/ string_of_list_byte password = "")) as Hne
      by (rewrite <- eqb_empty_or, Hempty; done).
    split_and!.
    + split; [|done].
      repeat case_match; cbn [fst]; intros [=].
    + done.
    + intros e _ ->. done.
    + intros _ ->. split_and!.
      * by repeat case_match.
      * by intros e ->.
      * by intros out -> ->.
      * intros out acct -> ->. split.
        -- intros Hacct. apply String.eqb_neq in Hacct. by rewrite Hacct.
        -- intros ->. by rewrite String.eqb_refl.
Qed.

(** An attempt whose delegate answers with another account, and one whose
    delegate answers with the required account. *)
Example Authenticate_scenarios :
  let answer acct := mkAWS (fun _ => None)
                           (fun _ => inr (mkIdentity (Some acct) None None))
                           (fun _ _ => None) in
  let a := NewAuthenticator "123456789012" "" in
  let conn := mkConn "AKIAEXAMPLE" (TCPAddr "192.168.1.1" 12345) in
  fst (Authenticate (answer "999999999999") a conn []) = Err (authError empty_credentials) /\
  fst (Authenticate (answer "999999999999") a conn [x73; x33])
    = Err (authError unauthorized_tenant) /\
  fst (Authenticate (answer "123456789012") a conn [x73; x33])
    = Ok (session conn [x73; x33] "123456789012").
Proof. cbv zeta. split_and!; reflexivity. Qed.

(** ** Command dispatch (C5) *)







(** The table of [TestSFTPHandler_Filecmd]. *)
Example Filecmd_test_table :
  let h := NewSFTPHandler (testConfig "/uploads")
             (NewS3Uploader "test-bucket" "" "" (fun _ => mkTime 2023 12 25 10 30 0)) in
  Filecmd h (mkRequest "Remove" "/uploads/test.txt" ∅) = Some ErrPermission /\
  Filecmd h (mkRequest "Rename" "/uploads/test.txt" ∅) = Some ErrPermission /\
  Filecmd h (mkRequest "Mkdir" "/uploads/newfolder" ∅) = None /\
  Filecmd h (mkRequest "Rmdir" "/uploads/folder" ∅) = Some ErrPermission /\
  Filecmd h (mkRequest "Setstat" "/uploads/test.txt" ∅) = None /\
  Filecmd h (mkRequest "UnknownOperation" "/uploads/test.txt" ∅) = Some ErrInvalid.
Proof. cbv zeta. split_and!; reflexivity. Qed.

(** ** The connection supervisor (C6) *)

Lemma run_app s es1 es2 : run s (es1 ++ es2) = run (run s es1) es2.
Proof. unfold run. apply fold_left_app. Qed.

(** While the context is not cancelled every accepted connection is
    served: the configured maximum is never consulted. *)
Lemma accept_all_served (s : SFTPServer) (cs : list Conn) :
  cancelled s = false ->
  let s' := run s (List.map Accepted cs) in
  serving s' = rev cs ++ serving s /\
  activeConns s' = activeConns s + Z.of_nat (length cs) /\
  cancelled s' = false /\
  serverConfig s' = serverConfig s.
Proof.
  revert s. induction cs as [|c cs IH]; intros s Hs; cbv zeta.
  - cbn. split_and!; [done|lia|done|done].
  - assert (step s (Accepted c)
            = mkSFTPServer (serverConfig s) (activeConns s + 1) (c :: serving s) false)
      as Hstep by (cbn; unfold acceptConnections; by rewrite Hs).
    change (run s (List.map Accepted (c :: cs)))
      with (run (step s (Accepted c)) (List.map Accepted cs)).
    rewrite Hstep.
    destruct (IH (mkSFTPServer (serverConfig s) (activeConns s + 1)
                               (c :: serving s) false) eq_refl)
      as (H1 & H2 & H3 & H4).
    rewrite H1, H2, H3, H4. cbn [serving activeConns serverConfig length rev].
    split_and!; [|lia|done|done].
    by rewrite <- app_assoc.
Qed.

(** C6 at a failing input: with a maximum of one connection, a second
    connection accepted while the first is being served is served as
    well; two connections are then served at once. *)
Lemma second_connection_served_beyond_maximum :
  let cfg := mkConfig 2222 "/uploads" 1024 "test-bucket" "" "" "123456789012" 1 in
  let s := run (mkSFTPServer cfg 0 [] false) [Accepted 1%nat; Accepted 2%nat] in
  MaxConnections (serverConfig s) = 1 /\
  serving s = [2%nat; 1%nat] /\
  activeConns s = 2.
Proof. cbv zeta. split_and!; reflexivity. Qed.

(** ** The registry of uploads (C4) *)







(** ** The credentials of the handoff (C10) *)

Section Carries.
Variables (aws : AWS) (h : SFTPHandler) (key secret : string) (w : addr).

Lemma carries_storeUpload up st :
  carries key secret w st -> carries key secret w (snd (storeUpload up st)).
Proof.
  intros (fw & up0 & Hw & Hu & Hk & Hs). exists fw, up0.
  unfold storeUpload. cbn [snd writers uploads].
  split_and!; [| |done|done].
  - rewrite lookup_insert_ne; [done|].
    intros Heq. pose proof (is_fresh (dom (writers st))) as Hf.
    rewrite Heq in Hf. apply Hf, elem_of_dom. eauto.
  - rewrite lookup_insert_ne; [done|].
    intros Heq. pose proof (is_fresh (dom (uploads st))) as Hf.
    rewrite Heq in Hf. apply Hf, elem_of_dom. eauto.
Qed.

Lemma carries_SessionFilewrite sh r st :
  carries key secret w st -> carries key secret w (snd (SessionFilewrite sh r st)).
Proof.
  intros Hc. unfold SessionFilewrite.
  repeat case_match; try done.
  match goal with H : storeUpload ?up st = _ |- _ =>
    pose proof (carries_storeUpload up st Hc) as Hc'; by rewrite H in Hc' end.
Qed.

Lemma carries_WriteAt fw' p off st :
  carries key secret w st -> carries key secret w (snd (WriteAt h fw' p off st)).
Proof.
  intros Hc. unfold WriteAt.
  destruct (writers st !! fw') as [w'|] eqn:Hw'; [|done].
  destruct (uploads st !! upload w') as [up'|] eqn:Hu'; [|done].
  destruct (closed w'); [done|].
  destruct (writeBuffer _ _ _ _) as [res data'].
  destruct Hc as (fw & up0 & Hw & Hu & Hk & Hs). cbn [snd].
  destruct (decide (upload w' = upload fw)) as [Heq|Hne].
  - exists fw, (mkFileUpload data' (path up') (clientIP up') (accessKey up') (secretKey up')).
    cbn [writers uploads accessKey secretKey].
    rewrite Heq, lookup_insert_eq. rewrite Heq, Hu in Hu'. by simplify_eq.
  - exists fw, up0. cbn [writers uploads].
    by rewrite lookup_insert_ne.
Qed.

Lemma carries_Close fw' st :
  carries key secret w st -> carries key secret w (snd (Close aws h fw' st)).
Proof.
  intros Hc. unfold Close.
  destruct (writers st !! fw') as [w'|] eqn:Hw'; [|done].
  destruct (uploads st !! upload w') as [up'|] eqn:Hu'; [|done].
  destruct (closed w'); [done|].
  destruct (UploadFile _ _ _ _ _ _ _) as [err made].
  destruct Hc as (fw & up0 & Hw & Hu & Hk & Hs).
  assert (carries key secret w
            (mkStore (uploads st) (<[fw' := mkFileWriter (upload w') true]> (writers st))
                     (delete (path up') (activeUploads st)) (calls st ++ made))) as H'.
  { destruct (decide (fw' = w)) as [->|Hne].
    - exists (mkFileWriter (upload w') true), up0. cbn [writers uploads upload].
      rewrite lookup_insert_eq. by simplify_eq.
    - exists fw, up0. cbn [writers uploads]. by rewrite lookup_insert_ne. }
  by destruct err.
Qed.

Lemma carries_execAll ops st :
  carries key secret w st -> carries key secret w (execAll aws h st ops).
Proof.
  revert st. induction ops as [|op ops IH]; intros st Hc; [done|].
  cbn [execAll fold_left]. apply IH.
  destruct op; cbn [exec];
    [apply carries_SessionFilewrite | apply carries_WriteAt | apply carries_Close]; done.
Qed.

(** The calls of a close are made with the pair of the upload. *)
Lemma Close_calls st :
  carries key secret w st ->
  exists made,
    calls (snd (Close aws h w st)) = calls st ++ made /\
    forall cfg input, S3PutObject cfg input ∈ made ->
      optCredentials cfg = NewStaticCredentialsProvider key secret "".
Proof.
  intros (fw & up & Hw & Hu & <- & <-). unfold Close. rewrite Hw, Hu.
  destruct (closed fw).
  { exists []. cbn. rewrite app_nil_r. split; [done|]. by intros ?? ?%elem_of_nil. }
  unfold UploadFile. cbv zeta.
  match goal with |- context [LoadDefaultConfig aws ?c] =>
    destruct (LoadDefaultConfig aws c) end.
  { exists []. cbn. rewrite app_nil_r. split; [done|]. by intros ?? ?%elem_of_nil. }
  match goal with |- context [PutObject aws ?c ?i] =>
    destruct (PutObject aws c i) end;
    eexists; (split; [reflexivity|]);
    intros cfg input [= -> ->]%list_elem_of_singleton; done.
Qed.
End Carries.

Lemma opened_writer_carries sh r st w st1 :
  SessionFilewrite sh r st = (Ok w, st1) ->
  carries (accessKeyID sh) (secretAccessKey sh) w st1.
Proof.
  unfold SessionFilewrite, storeUpload. repeat case_match; try done.
  intros [= <- <-]. simplify_eq.
  eexists _, _. cbn [writers uploads upload].
  rewrite lookup_insert_eq. split; [done|]. cbn [upload]. by rewrite lookup_insert_eq.
Qed.

Lemma session_presented aws a h conn password perms trace sh :
  Authenticate aws a conn password = (Ok perms, trace) ->
  handleSFTP h (RemoteAddr conn) (Some perms) = Some sh ->
  accessKeyID sh = User conn /\
  secretAccessKey sh = string_of_list_byte password /\
  handler sh = h.
Proof.
  unfold Authenticate, handleSFTP. intros Ha [= <-].
  repeat case_match; simplify_eq. done.
Qed.

(** C10.  A client authenticates with an identifier and a secret, its
    session opens a write, and whatever happens to the store afterwards
    (writes, closes, other sessions opening writes), the close of that
    writer makes its storage calls with a credentials provider that holds
    exactly the presented identifier and secret (and no session token). *)
Theorem handoff_uses_presented_credentials (aws : AWS) (a : Authenticator)
    (h : SFTPHandler) (conn : ConnMetadata) (password : list byte)
    (perms : Permissions) (trace : list Call) (sh : SessionSFTPHandler)
    (r : Request) (st : Store) (w : addr) (st1 : Store) (ops : list Op) :
  Authenticate aws a conn password = (Ok perms, trace) ->
  handleSFTP h (RemoteAddr conn) (Some perms) = Some sh ->
  SessionFilewrite sh r st = (Ok w, st1) ->
  let st2 := execAll aws h st1 ops in
  exists made,
    calls (snd (Close aws h w st2)) = calls st2 ++ made /\
    forall cfg input, S3PutObject cfg input ∈ made ->
      optCredentials cfg =
      NewStaticCredentialsProvider (User conn) (string_of_list_byte password) "".
Proof.
  intros Hauth Hsess Hopen st2.
  destruct (session_presented _ _ _ _ _ _ _ _ Hauth Hsess) as (<- & <- & _).
  apply Close_calls. subst st2. apply carries_execAll.
  by eapply opened_writer_carries.
Qed.

Lemma handoff_uses_presented_credentials_witness :
  let a := NewAuthenticator "123456789012" "" in
  let password := [x73; x33] in
  let sh := mkSessionSFTPHandler demoHandler "127.0.0.1" "test-key"
              (string_of_list_byte password) "123456789012" in
  let r := mkRequest "Put" "/uploads/a.txt" ∅ in
  let st1 := snd (SessionFilewrite sh r emptyStore) in
  let st2 := execAll demoAWS demoHandler st1 [OpWriteAt 0%nat [x01] 0] in
  exists made,
    calls (snd (Close demoAWS demoHandler 0%nat st2)) = calls st2 ++ made /\
    forall cfg input, S3PutObject cfg input ∈ made ->
      optCredentials cfg =
      NewStaticCredentialsProvider (User demoConn) (string_of_list_byte password) "".
Proof.
  cbv zeta.
  apply (handoff_uses_presented_credentials demoAWS
           (NewAuthenticator "123456789012" "") demoHandler demoConn [x73; x33]
           (session demoConn [x73; x33] "123456789012")
           (snd (Authenticate demoAWS (NewAuthenticator "123456789012" "")
                   demoConn [x73; x33]))
           (mkSessionSFTPHandler demoHandler "127.0.0.1" "test-key"
              (string_of_list_byte [x73; x33]) "123456789012")
           (mkRequest "Put" "/uploads/a.txt" ∅) emptyStore 0%nat
           (snd (SessionFilewrite
                   (mkSessionSFTPHandler demoHandler "127.0.0.1" "test-key"
                      (string_of_list_byte [x73; x33]) "123456789012")
                   (mkRequest "Put" "/uploads/a.txt" ∅) emptyStore))
           [OpWriteAt 0%nat [x01] 0]).
  - vm_compute. reflexivity.
  - vm_compute. reflexivity.
  - vm_compute. reflexivity.
Defined.

(** The demonstration run: the handoff of the session of "test-key". *)
Example handoff_demo :
  let sh := mkSessionSFTPHandler demoHandler "127.0.0.1" "test-key" "s3" "123456789012" in
  let st1 := snd (SessionFilewrite sh (mkRequest "Put" "/uploads/a.txt" ∅) emptyStore) in
  let st2 := execAll demoAWS demoHandler st1 [OpWriteAt 0%nat [x01; x02] 0] in
  List.map (fun c => match c with
                     | S3PutObject cfg input =>
                         (credAccessKeyID (optCredentials cfg),
                          credSecretAccessKey (optCredentials cfg),
                          Key input, Body input)
                     | STSGetCallerIdentity _ => ("", "", "", [])
                     end)
           (calls (snd (Close demoAWS demoHandler 0%nat st2)))
  = [("test-key", "s3", "2023-12-25/a.txt", [x01; x02])].
Proof. vm_compute. reflexivity. Qed.

(** ** The upload buffer (C2, C3) *)

Lemma wrap64_small z : - 2 ^ 63 <= z <= maxInt64 -> wrap64 z = z.
Proof.
  unfold wrap64, maxInt64. intros Hz.
  rewrite Z.mod_small by lia. lia.
Qed.

Lemma length_copy dst src : length (copy dst src) = length dst.
Proof. unfold copy. rewrite length_app, length_take, length_drop. lia. Qed.

Lemma copy_make e data :
  (length data < e)%nat -> copy (make (Z.of_nat e)) data = extend e data.
Proof.
  intros Hlt. unfold copy, make, extend.
  rewrite Nat2Z.id, length_replicate.
  rewrite take_ge by lia.
  destruct (Nat.ltb_spec (length data) e); [|lia].
  f_equal. apply list_eq. intros i.
  rewrite lookup_drop.
  destruct (decide (i < e - length data)%nat).
  - by rewrite !lookup_replicate_2 by lia.
  - rewrite !(proj1 (lookup_replicate_None _ _ _)) by lia. done.
Qed.

Lemma length_extend e data : length (extend e data) = max (length data) e.
Proof.
  unfold extend. destruct (Nat.ltb_spec (length data) e).
  - rewrite length_app, length_replicate. lia.
  - lia.
Qed.

Lemma length_overwrite o p data :
  (o + length p <= length data)%nat -> length (overwrite o p data) = length data.
Proof.
  intros Hle. unfold overwrite.
  rewrite !length_app, length_take, length_drop. lia.
Qed.

(** A write inside the limit at a non-negative offset succeeds with
    [len(p)] and leaves the buffer grown and overwritten. *)
Lemma writeBuffer_ok maxFileSize data p off :
  0 <= off ->
  off + Z.of_nat (length p) <= maxFileSize ->
  maxFileSize <= maxInt64 ->
  writeBuffer maxFileSize data p off =
    (Ok (Z.of_nat (length p)),
     overwrite (Z.to_nat off) p (extend (Z.to_nat off + length p) data)).
Proof.
  intros Hoff Hend Hmax. unfold writeBuffer.
  rewrite wrap64_small by (unfold maxInt64 in *; lia).
  destruct (Z.gtb_spec (off + Z.of_nat (length p)) maxFileSize); [lia|].
  set (e := (Z.to_nat off + length p)%nat).
  assert (off + Z.of_nat (length p) = Z.of_nat e) as -> by lia.
  assert ((if Z.of_nat (length data) <? Z.of_nat e
           then copy (make (Z.of_nat e)) data else data) = extend e data) as ->.
  { destruct (Z.ltb_spec (Z.of_nat (length data)) (Z.of_nat e)).
    - apply copy_make. lia.
    - unfold extend. by destruct (Nat.ltb_spec (length data) e); [lia|]. }
  pose proof (length_extend e data) as Hlen.
  destruct (Z.ltb_spec off 0); [lia|].
  destruct (Z.ltb_spec (Z.of_nat (length (extend e data))) off); [lia|].
  cbn [orb]. f_equal. unfold overwrite, copy. f_equal.
  rewrite length_drop, take_ge by lia.
  by rewrite drop_drop.
Qed.

Lemma lookup_extend e data i :
  extend e data !! i =
    if decide (i < length data)%nat then data !! i
    else if decide (i < e)%nat then Some x00 else None.
Proof.
  unfold extend. destruct (Nat.ltb_spec (length data) e).
  - rewrite lookup_app. destruct (data !! i) eqn:Hi.
    + apply lookup_lt_Some in Hi as Hlt. by rewrite decide_True.
    + apply lookup_ge_None in Hi. rewrite decide_False by lia.
      case_decide.
      * by rewrite lookup_replicate_2 by lia.
      * apply lookup_replicate_None. lia.
  - case_decide; [done|]. rewrite decide_False by lia.
    apply lookup_ge_None. lia.
Qed.

(** The buffer after a write, byte by byte: the bytes of [p] from [o]
    on, the old bytes elsewhere, zero in the gap between the old end and
    [o]. *)
Lemma lookup_written o p data i :
  overwrite o p (extend (o + length p) data) !! i =
    if decide (o <= i < o + length p)%nat then p !! (i - o)%nat
    else if decide (i < length data)%nat then data !! i
    else if decide (i < o)%nat then Some x00 else None.
Proof.
  unfold overwrite.
  pose proof (length_extend (o + length p) data) as Hlen.
  rewrite lookup_app, lookup_take.
  case_decide as Hio.
  - rewrite (decide_False (P := (o <= i < o + length p)%nat)) by lia.
    assert (is_Some (extend (o + length p) data !! i)) as [x Hx]
      by (apply lookup_lt_is_Some; lia).
    rewrite Hx. rewrite lookup_extend in Hx.
    repeat case_decide; try done; lia.
  - rewrite length_take, lookup_app.
    replace (i - o `min` length (extend (o + length p) data))%nat with (i - o)%nat by lia.
    destruct (p !! (i - o)%nat) eqn:Hp.
    + apply lookup_lt_Some in Hp as Hlt. by rewrite decide_True by lia.
    + apply lookup_ge_None in Hp. rewrite decide_False by lia.
      rewrite lookup_drop, lookup_extend.
      replace (o + length p + (i - o - length p))%nat with i by lia.
      case_decide; [done|]. by rewrite !decide_False by lia.
Qed.

(** *** The buffer as the specification describes it *)

Lemma writeAll_expected maxFileSize ws data :
  maxFileSize <= maxInt64 ->
  Forall (inBounds maxFileSize) ws ->
  exists final,
    writeAll maxFileSize data ws = Some final /\
    forall i, final !! i = expected data ws i.
Proof.
  intros Hmax Hws. revert data.
  induction Hws as [|[off p] ws [Hoff Hend] _ IH]; intros data.
  - exists data. split; [done|]. intros i. unfold expected. cbn [extent lastWrite].
    destruct (Nat.ltb_spec i (length data)) as [Hlt|Hge].
    + apply lookup_lt_is_Some in Hlt as [x Hx]. by rewrite Hx.
    + by apply lookup_ge_None.
  - cbn [fst snd] in *. cbn [writeAll]. rewrite writeBuffer_ok by done.
    set (o := Z.to_nat off) in *.
    set (data' := overwrite o p (extend (o + length p) data)).
    destruct (IH data') as (final & Hrun & Hfinal).
    exists final. split; [done|]. intros i. rewrite Hfinal.
    unfold expected. cbn [extent lastWrite]. fold o.
    assert (length data' = max (length data) (o + length p)) as ->.
    { unfold data'. rewrite length_overwrite; rewrite length_extend; lia. }
    destruct (i <? _)%nat; [|done]. f_equal.
    destruct (lastWrite ws i); [done|]. cbn [default].
    unfold data'. rewrite lookup_written.
    destruct (Nat.leb_spec o i).
    + case_decide.
      * assert (is_Some (p !! (i - o)%nat)) as [x Hx]
          by (apply lookup_lt_is_Some; lia).
        by rewrite Hx.
      * rewrite (proj2 (lookup_ge_None p (i - o)%nat)) by lia. cbn [default].
        case_decide; [done|]. rewrite decide_False by lia.
        by rewrite (proj2 (lookup_ge_None data i)) by lia.
    + rewrite decide_False by lia. cbn [default].
      case_decide; [done|]. rewrite decide_True by lia.
      by rewrite (proj2 (lookup_ge_None data i)) by lia.
Qed.

Lemma extent_ge n ws : (n <= extent n ws)%nat.
Proof.
  revert n. induction ws as [|[o q] ws IH]; intros n; cbn [extent]; [lia|].
  specialize (IH (max n (Z.to_nat o + length q))). lia.
Qed.

Lemma extent_last n ws off p :
  (Z.to_nat off + length p <= extent n (ws ++ [(off, p)]))%nat.
Proof.
  revert n. induction ws as [|[o q] ws IH]; intros n; cbn [app extent]; [lia|apply IH].
Qed.

Lemma lastWrite_last ws off p j :
  (j < length p)%nat -> lastWrite (ws ++ [(off, p)]) (Z.to_nat off + j) = p !! j.
Proof.
  intros Hj. induction ws as [|[o q] ws IH]; cbn [app lastWrite].
  - destruct (Nat.leb_spec (Z.to_nat off) (Z.to_nat off + j)); [|lia].
    by replace (Z.to_nat off + j - Z.to_nat off)%nat with j by lia.
  - rewrite IH. apply lookup_lt_is_Some in Hj as [x Hx]. by rewrite Hx.
Qed.

(** The content at the offset of the write made last is that write. *)
Lemma expected_last data ws off p j :
  (j < length p)%nat ->
  expected data (ws ++ [(off, p)]) (Z.to_nat off + j) = p !! j.
Proof.
  intros Hj. unfold expected.
  rewrite lastWrite_last by done.
  pose proof (extent_last (length data) ws off p) as Hext.
  destruct (Nat.ltb_spec (Z.to_nat off + j) (extent (length data) (ws ++ [(off, p)])));
    [|lia].
  apply lookup_lt_is_Some in Hj as [x Hx]. by rewrite Hx.
Qed.

(** A position beyond the old buffer that no write covers is zero. *)
Lemma expected_gap data ws i :
  (length data <= i < extent (length data) ws)%nat ->
  lastWrite ws i = None ->
  expected data ws i = Some x00.
Proof.
  intros [Hge Hlt] Hnone. unfold expected. rewrite Hnone.
  destruct (Nat.ltb_spec i (extent (length data) ws)); [|lia].
  by rewrite (proj2 (lookup_ge_None data i)) by lia.
Qed.

(** A position the writes do not cover keeps the byte it had. *)
Lemma expected_kept data ws i :
  (i < length data)%nat ->
  lastWrite ws i = None ->
  expected data ws i = data !! i.
Proof.
  intros Hlt Hnone. unfold expected. rewrite Hnone.
  pose proof (extent_ge (length data) ws) as Hext.
  destruct (Nat.ltb_spec i (extent (length data) ws)); [|lia].
  apply lookup_lt_is_Some in Hlt as [x Hx]. by rewrite Hx.
Qed.

Example expected_overlap :
  (* three writes, the third over the end of the first; a gap at 3 and 4 *)
  let ws := [(0, [x01; x02; x03]); (5, [x09]); (1, [x07; x08])] in
  writeAll 1024 [] ws = Some [x01; x07; x08; x00; x00; x09] /\
  List.map (expected [] ws) (seq 0 7)
    = [Some x01; Some x07; Some x08; Some x00; Some x00; Some x09; None].
Proof. cbv zeta. split; vm_compute; reflexivity. Qed.

(** *** Writes and close on the store *)

Section OpenWriter.
Variables (aws : AWS) (h : SFTPHandler) (fw : addr) (w : FileWriter).
Hypothesis Hopen : closed w = false.

Lemma WriteAt_open st up p off :
  writers st !! fw = Some w ->
  uploads st !! upload w = Some up ->
  WriteAt h fw p off st =
    (fst (writeBuffer (MaxFileSize (config h)) (data up) p off),
     putUpload st (upload w)
       (withData up (snd (writeBuffer (MaxFileSize (config h)) (data up) p off)))).
Proof.
  intros Hw Hu. unfold WriteAt. rewrite Hw, Hu, Hopen.
  by destruct (writeBuffer _ _ _ _).
Qed.

Lemma writeSeq_inBounds ws :
  MaxFileSize (config h) <= maxInt64 ->
  Forall (inBounds (MaxFileSize (config h))) ws ->
  forall st up,
    writers st !! fw = Some w ->
    uploads st !! upload w = Some up ->
    exists final,
      writeAll (MaxFileSize (config h)) (data up) ws = Some final /\
      fst (writeSeq h fw ws st)
        = List.map (fun x => Ok (Z.of_nat (length x.2))) ws /\
      uploads (snd (writeSeq h fw ws st)) !! upload w = Some (withData up final) /\
      writers (snd (writeSeq h fw ws st)) = writers st /\
      calls (snd (writeSeq h fw ws st)) = calls st.
Proof.
  intros Hmax Hws.
  induction Hws as [|[off p] ws [Hoff Hend] _ IH]; intros st up Hw Hu.
  - exists (data up). cbn. split_and!; try done. by destruct up.
  - cbn [fst snd] in *. cbn [writeSeq writeAll].
    rewrite (WriteAt_open st up) by done.
    rewrite writeBuffer_ok by done. cbn [fst snd].
    set (d := overwrite _ _ _).
    destruct (IH (putUpload st (upload w) (withData up d)) (withData up d))
      as (final & Hall & Hrs & Hup & Hws' & Hcalls).
    { done. }
    { cbn. by rewrite lookup_insert_eq. }
    destruct (writeSeq h fw ws _) as [rs st2]. cbn [fst snd] in *.
    exists final. split_and!; [done|by rewrite Hrs|done|done|done].
Qed.

(** The first close hands the buffer of the upload to the store: every
    storage call carries it as body, and there is one such call when
    the SDK configuration loads. *)
Lemma Close_hands_buffer st up :
  writers st !! fw = Some w ->
  uploads st !! upload w = Some up ->
  exists made,
    calls (snd (Close aws h fw st)) = calls st ++ made /\
    (forall cfg input, S3PutObject cfg input ∈ made -> Body input = data up) /\
    (LoadDefaultConfig aws (uploadOptions h up) = None ->
     exists input, made = [S3PutObject (uploadOptions h up) input]).
Proof.
  intros Hw Hu. unfold Close. rewrite Hw, Hu, Hopen.
  unfold UploadFile. cbv zeta. fold (uploadOptions h up).
  destruct (LoadDefaultConfig aws (uploadOptions h up)).
  { exists []. cbn. rewrite app_nil_r. split_and!; [done| |done].
    by intros ?? ?%elem_of_nil. }
  match goal with |- context [PutObject aws ?c ?i] =>
    destruct (PutObject aws c i) end;
    eexists; (split_and!; [reflexivity| |by eauto]);
    intros cfg input [= -> ->]%list_elem_of_singleton; done.
Qed.
End OpenWriter.

(** C2.  On an open writer, writes whose offsets are not negative and
    whose ends are within the maximum file size all succeed (each returns
    the number of its bytes), and the close that follows hands the store
    a buffer that holds, at every position, the byte of the last write
    covering it, the old byte where no write reached, and zero in the gaps
    beyond the old end; in particular the bytes at the offset of the write
    made last are exactly its bytes. *)
Theorem WriteAt_then_Close (aws : AWS) (h : SFTPHandler) (fw : addr)
    (w : FileWriter) (up : FileUpload) (st : Store) (ws : list (Z * list byte)) :
  writers st !! fw = Some w ->
  closed w = false ->
  uploads st !! upload w = Some up ->
  MaxFileSize (config h) <= maxInt64 ->
  Forall (inBounds (MaxFileSize (config h))) ws ->
  exists final made,
    fst (writeSeq h fw ws st) = List.map (fun x => Ok (Z.of_nat (length x.2))) ws /\
    calls (snd (Close aws h fw (snd (writeSeq h fw ws st)))) = calls st ++ made /\
    (forall cfg input, S3PutObject cfg input ∈ made -> Body input = final) /\
    (LoadDefaultConfig aws (uploadOptions h up) = None ->
     exists input, made = [S3PutObject (uploadOptions h up) input]) /\
    (forall i, final !! i = expected (data up) ws i) /\
    (forall ws' off p j, ws = ws' ++ [(off, p)] -> (j < length p)%nat ->
       final !! (Z.to_nat off + j)%nat = p !! j) /\
    (forall i, (length (data up) <= i < length final)%nat -> lastWrite ws i = None ->
       final !! i = Some x00).
Proof.
  intros Hw Hopen Hu Hmax Hws.
  destruct (writeSeq_inBounds h fw w Hopen ws Hmax Hws st up Hw Hu)
    as (final & Hall & Hrs & Hup & Hws' & Hcalls).
  destruct (writeAll_expected _ ws (data up) Hmax Hws) as (final' & Hall' & Hfinal).
  assert (final' = final) as -> by congruence.
  destruct (Close_hands_buffer aws h fw w Hopen (snd (writeSeq h fw ws st))
              (withData up final)) as (made & Hmade & Hbody & Hone).
  { by rewrite Hws'. }
  { done. }
  exists final, made. split_and!.
  - done.
  - by rewrite Hmade, Hcalls.
  - exact Hbody.
  - exact Hone.
  - exact Hfinal.
  - intros ws' off p j -> Hj. rewrite Hfinal. by apply expected_last.
  - intros i [Hge Hlt] Hnone. rewrite Hfinal. apply expected_gap; [|done].
    split; [done|].
    destruct (Nat.ltb_spec i (extent (length (data up)) ws)) as [|Hout]; [done|].
    apply lookup_lt_is_Some in Hlt as [x Hx]. rewrite Hfinal in Hx.
    unfold expected in Hx.
    by destruct (Nat.ltb_spec i (extent (length (data up)) ws)); [lia|].
Qed.

Lemma WriteAt_then_Close_witness :
  exists final made,
    fst (writeSeq demoHandler 0%nat demoWrites demoStore)
      = List.map (fun x => Ok (Z.of_nat (length x.2))) demoWrites /\
    calls (snd (Close demoAWS demoHandler 0%nat
                  (snd (writeSeq demoHandler 0%nat demoWrites demoStore))))
      = calls demoStore ++ made /\
    (forall cfg input, S3PutObject cfg input ∈ made -> Body input = final) /\
    (LoadDefaultConfig demoAWS (uploadOptions demoHandler demoUpload) = None ->
     exists input, made = [S3PutObject (uploadOptions demoHandler demoUpload) input]) /\
    (forall i, final !! i = expected (data demoUpload) demoWrites i) /\
    (forall ws' off p j, demoWrites = ws' ++ [(off, p)] -> (j < length p)%nat ->
       final !! (Z.to_nat off + j)%nat = p !! j) /\
    (forall i, (length (data demoUpload) <= i < length final)%nat ->
       lastWrite demoWrites i = None -> final !! i = Some x00).
Proof.
  apply (WriteAt_then_Close demoAWS demoHandler 0%nat (mkFileWriter 0%nat false)
           demoUpload demoStore demoWrites).
  - vm_compute. reflexivity.
  - reflexivity.
  - vm_compute. reflexivity.
  - vm_compute. discriminate.
  - repeat constructor; cbn; lia.
Defined.

(** The run of the witness: the buffer handed over. *)
Example WriteAt_then_Close_demo :
  List.map (fun c => match c with
                     | S3PutObject _ input => Body input
                     | STSGetCallerIdentity _ => []
                     end)
    (calls (snd (Close demoAWS demoHandler 0%nat
                   (snd (writeSeq demoHandler 0%nat demoWrites demoStore)))))
  = [[x01; x07; x08; x00; x00; x09]].
Proof. vm_compute. reflexivity. Qed.

(** *** Refused writes (C3) *)

Lemma putUpload_same st u up : uploads st !! u = Some up -> putUpload st u up = st.
Proof.
  intros Hu. unfold putUpload. rewrite insert_id by done. by destruct st.
Qed.

Lemma withData_same up : withData up (data up) = up.
Proof. by destruct up. Qed.

(** A closed writer refuses every write with [os.ErrClosed] and the store
    stays as it is. *)
Lemma WriteAt_closed h fw w up st p off :
  writers st !! fw = Some w ->
  uploads st !! upload w = Some up ->
  closed w = true ->
  WriteAt h fw p off st = (Err ErrClosed, st).
Proof. intros Hw Hu Hc. unfold WriteAt. by rewrite Hw, Hu, Hc. Qed.

(** What [WriteAt] compares with the maximum is the [int64] sum. *)
Lemma writeBuffer_tooLarge_iff maxFileSize data p off :
  fst (writeBuffer maxFileSize data p off) = Err tooLarge <->
  wrap64 (off + Z.of_nat (length p)) > maxFileSize.
Proof.
  unfold writeBuffer.
  destruct (Z.gtb_spec (wrap64 (off + Z.of_nat (length p))) maxFileSize).
  - cbn [fst]. split; [lia|done].
  - split; [|lia]. by repeat case_match.
Qed.

Lemma writeBuffer_tooLarge_unchanged maxFileSize data p off :
  fst (writeBuffer maxFileSize data p off) = Err tooLarge ->
  snd (writeBuffer maxFileSize data p off) = data.
Proof.
  unfold writeBuffer. repeat case_match; cbn [fst snd]; try done.
Qed.

(** On an open writer the write fails with the size error exactly when
    the [int64] sum of offset and length exceeds the maximum; the store is
    then unchanged (the writer stays open). *)
Lemma WriteAt_tooLarge h fw w up st p off :
  writers st !! fw = Some w ->
  uploads st !! upload w = Some up ->
  closed w = false ->
  (fst (WriteAt h fw p off st) = Err tooLarge <->
   wrap64 (off + Z.of_nat (length p)) > MaxFileSize (config h)) /\
  (fst (WriteAt h fw p off st) = Err tooLarge -> snd (WriteAt h fw p off st) = st).
Proof.
  intros Hw Hu Hc. rewrite (WriteAt_open h fw w Hc st up) by done. cbn [fst snd].
  split; [apply writeBuffer_tooLarge_iff|].
  intros Herr. rewrite writeBuffer_tooLarge_unchanged by done.
  rewrite withData_same. by apply putUpload_same.
Qed.

(** When the sum does not overflow it is the sum of the integers. *)
Lemma WriteAt_tooLarge_no_overflow h fw w up st p off :
  writers st !! fw = Some w ->
  uploads st !! upload w = Some up ->
  closed w = false ->
  - 2 ^ 63 <= off -> off + Z.of_nat (length p) <= maxInt64 ->
  (fst (WriteAt h fw p off st) = Err tooLarge <->
   off + Z.of_nat (length p) > MaxFileSize (config h)).
Proof.
  intros Hw Hu Hc Hlo Hhi.
  destruct (WriteAt_tooLarge h fw w up st p off Hw Hu Hc) as [Hiff _].
  rewrite Hiff, wrap64_small; [done|lia].
Qed.

(** No call of [WriteAt], failed or not, leaves a buffer longer than the
    maximum. *)
Lemma writeBuffer_bounded maxFileSize data p off :
  Z.of_nat (length data) <= maxFileSize ->
  Z.of_nat (length (snd (writeBuffer maxFileSize data p off))) <= maxFileSize.
Proof.
  intros Hlen. unfold writeBuffer.
  destruct (Z.gtb_spec (wrap64 (off + Z.of_nat (length p))) maxFileSize); [done|].
  set (e := wrap64 (off + Z.of_nat (length p))) in *.
  set (data1 := if Z.of_nat (length data) <? e then copy (make e) data else data).
  assert (Z.of_nat (length data1) <= maxFileSize) as Hlen1.
  { unfold data1. destruct (Z.ltb_spec (Z.of_nat (length data)) e); [|done].
    rewrite length_copy. unfold make. rewrite length_replicate. lia. }
  destruct (Z.ltb_spec off 0); [done|].
  destruct (Z.ltb_spec (Z.of_nat (length data1)) off); [done|].
  cbn [orb snd]. rewrite length_app, length_copy, length_take, length_drop. lia.
Qed.

Lemma WriteAt_bounded h fw p off st :
  bounded h st -> bounded h (snd (WriteAt h fw p off st)).
Proof.
  intros Hb. unfold WriteAt.
  destruct (writers st !! fw) as [w|]; [|done].
  destruct (uploads st !! upload w) as [up|] eqn:Hu; [|done].
  destruct (closed w); [done|].
  pose proof (writeBuffer_bounded (MaxFileSize (config h)) (data up) p off
                (Hb _ _ Hu)) as Hlen.
  destruct (writeBuffer _ _ _ _) as [r d]. cbn [snd] in *.
  intros u up' Hlook. cbn [uploads] in Hlook.
  destruct (decide (upload w = u)) as [<-|Hne].
  - rewrite lookup_insert_eq in Hlook. by simplify_eq.
  - rewrite lookup_insert_ne in Hlook by done. by eapply Hb.
Qed.

Lemma writeSeq_bounded h fw ws st :
  bounded h st -> bounded h (snd (writeSeq h fw ws st)).
Proof.
  revert st. induction ws as [|[off p] ws IH]; intros st Hb; [done|].
  cbn [writeSeq].
  pose proof (WriteAt_bounded h fw p off st Hb) as Hb1.
  destruct (WriteAt h fw p off st) as [r st1]. cbn [snd] in Hb1.
  specialize (IH st1 Hb1). by destruct (writeSeq h fw ws st1).
Qed.

(** C3 at a failing input.  The maximum is 1024 bytes; one byte is written
    at the largest offset an [int64] holds.  The end position, 2^63, is
    beyond the maximum, yet it wraps to -2^63, the size check passes and
    the write is not refused with the size error: slicing the buffer at
    the offset panics. *)
Lemma WriteAt_offset_overflow_not_refused :
  MaxFileSize (config demoHandler) = 1024 /\
  maxInt64 + Z.of_nat (length [x41]) > MaxFileSize (config demoHandler) /\
  wrap64 (maxInt64 + Z.of_nat (length [x41])) = - 2 ^ 63 /\
  WriteAt demoHandler 0%nat [x41] maxInt64 demoStore
    = (Panic "slice bounds out of range", demoStore).
Proof. split_and!; vm_compute; reflexivity. Qed.

(** The table of [TestFileWriter_WriteAt] and the closed writer of
    [TestFileWriter_WriteAt_ClosedWriter]. *)
Example WriteAt_test_table :
  let hello := list_byte_of_string "hello world" in
  fst (WriteAt demoHandler 0%nat hello 0 demoStore) = Ok 11 /\
  fst (WriteAt demoHandler 0%nat (list_byte_of_string "test") 100 demoStore) = Ok 4 /\
  fst (WriteAt demoHandler 0%nat (make 2048) 0 demoStore) = Err tooLarge /\
  fst (WriteAt demoHandler 0%nat (make 500) 600 demoStore) = Err tooLarge /\
  fst (WriteAt demoHandler 0%nat (list_byte_of_string "test") 0
         (snd (Close demoAWS demoHandler 0%nat demoStore))) = Err ErrClosed.
Proof. cbv zeta. split_and!; vm_compute; reflexivity. Qed.

(** ** The path guard (C1) *)

Section PathLemmas.
Import GoStrings GoPath.

Lemma HasPrefix_dotdot_sep e s :
  HasPrefix (e +:+ String Separator s) ".." = HasPrefix e "..".
Proof.
  by destruct e as [|c [|d e]].
Qed.

(** A joined list starts with ".." exactly when its first element does. *)
Lemma HasPrefix_dotdot_join es :
  HasPrefix (joinSlash es) ".." =
    match es with
    | [] => false
    | e :: _ => HasPrefix e ".."
    end.
Proof.
  destruct es as [|e [|e' es]]; [done|done|].
  cbn [joinSlash]. apply HasPrefix_dotdot_sep.
Qed.

Lemma dropCommon_spec bs ts :
  exists common bs' ts',
    dropCommon bs ts = (bs', ts') /\
    bs = common ++ bs' /\ ts = common ++ ts' /\
    match bs', ts' with
    | b :: _, t :: _ => t <> b
    | _, _ => True
    end.
Proof.
  revert ts. induction bs as [|b bs IH]; intros ts.
  - exists [], [], ts. by destruct ts.
  - destruct ts as [|t ts].
    + by exists [], (b :: bs), [].
    + cbn [dropCommon]. destruct (String.eqb_spec t b) as [->|Hne].
      * destruct (IH ts) as (common & bs' & ts' & Hd & -> & -> & Hhead).
        by exists (b :: common), bs', ts'.
      * by exists [], (b :: bs), (t :: ts).
Qed.

Lemma Clean_rooted p : HasPrefix p "/" = true -> HasPrefix (Clean p) "/" = true.
Proof. intros Hp. unfold Clean. by rewrite Hp. Qed.
End PathLemmas.

Lemma canonical_rooted path : GoStrings.HasPrefix (canonical path) "/" = true.
Proof.
  unfold canonical, GoPath.IsAbs. cbv zeta. apply Clean_rooted.
  by destruct (GoStrings.HasPrefix (GoPath.Clean path) "/") eqn:Hp.
Qed.

(** What the guard decides, for an absolute virtual root: the path is
    allowed exactly when the elements of the root are the first elements
    of the canonical path and the element that follows them, when there
    is one, does not begin with "..". *)
Lemma isPathAllowed_iff (config : Config) (path : string) :
  GoPath.IsAbs (VirtualDir config) = true ->
  isPathAllowed config path = true <->
  exists rest,
    GoPath.elems (canonical path)
      = GoPath.elems (GoPath.Clean (VirtualDir config)) ++ rest /\
    match rest with
    | [] => True
    | e :: _ => GoStrings.HasPrefix e ".." = false
    end.
Proof.
  intros Habs. unfold isPathAllowed, GoPath.Rel. cbv zeta.
  fold (canonical path).
  pose proof (canonical_rooted path) as Htarg.
  pose proof (Clean_rooted _ Habs) as Hbase.
  destruct (String.eqb_spec (canonical path) (GoPath.Clean (VirtualDir config)))
    as [Heq|Hne].
  { split; [|done]. intros _. exists []. by rewrite Heq, app_nil_r. }
  destruct (String.eqb_spec (GoPath.Clean (VirtualDir config)) ".") as [Hdot|_].
  { by rewrite Hdot in Hbase. }
  rewrite Hbase, Htarg. cbn [Bool.eqb negb].
  destruct (dropCommon_spec (GoPath.elems (GoPath.Clean (VirtualDir config)))
                            (GoPath.elems (canonical path)))
    as (common & bs' & ts' & -> & -> & -> & Hhead).
  destruct bs' as [|b bs'].
  - rewrite app_nil_r. rewrite HasPrefix_dotdot_join. split.
    + intros Hok. exists ts'. split; [done|].
      destruct ts'; [done|]. by apply negb_true_iff.
    + intros (rest & ->%app_inv_head & Hrest).
      destruct rest; [done|]. by apply negb_true_iff.
  - assert (forall rest, common ++ ts' <> (common ++ b :: bs') ++ rest) as Hno.
    { intros rest. rewrite <- app_assoc. intros Heq%app_inv_head.
      destruct ts' as [|t ts'']; [done|]. cbn in Heq. by simplify_eq. }
    destruct ts' as [|t ts''].
    + split; [|by intros (rest & ?%Hno & _)].
      rewrite HasPrefix_dotdot_join. done.
    + destruct (String.eqb b "..").
      * split; [done|by intros (rest & ?%Hno & _)].
      * split; [|by intros (rest & ?%Hno & _)].
        rewrite HasPrefix_dotdot_join. done.
Qed.

(** *** Canonical paths *)

Section Canonical.
Import GoStrings GoPath.

Lemma splitSlash_nonempty s : splitSlash s <> [].
Proof.
  destruct s as [|c s]; [done|]. cbn [splitSlash].
  destruct (Ascii.eqb c Separator); [done|]. by destruct (splitSlash s).
Qed.

Lemma splitSlash_noSlash s : Forall (fun e => noSlash e = true) (splitSlash s).
Proof.
  induction s as [|c s IH]; [by repeat constructor|].
  cbn [splitSlash]. destruct (Ascii.eqb c Separator) eqn:Hc.
  - by constructor.
  - destruct (splitSlash s) as [|e es]; [by repeat constructor; cbn; rewrite Hc|].
    inversion_clear IH. constructor; [|done]. cbn. by rewrite Hc.
Qed.

Lemma splitSlash_elem e : noSlash e = true -> splitSlash e = [e].
Proof.
  induction e as [|c e IH]; [done|]. cbn.
  intros [Hc He]%andb_true_iff. apply negb_true_iff in Hc.
  by rewrite Hc, IH.
Qed.

Lemma splitSlash_sep e s :
  noSlash e = true -> splitSlash (e +:+ String Separator s) = e :: splitSlash s.
Proof.
  induction e as [|c e IH]; [done|]. cbn [noSlash].
  intros [Hc He]%andb_true_iff. apply negb_true_iff in Hc.
  rewrite append_cons. cbn [splitSlash]. by rewrite Hc, IH.
Qed.

Lemma splitSlash_join es :
  es <> [] -> Forall (fun e => noSlash e = true) es -> splitSlash (joinSlash es) = es.
Proof.
  intros Hne Hes. induction Hes as [|e es He Hes IH]; [done|].
  destruct es as [|e' es]; [by apply splitSlash_elem|].
  change (joinSlash (e :: e' :: es))
    with (e +:+ String Separator (joinSlash (e' :: es))).
  rewrite splitSlash_sep by done. by rewrite IH.
Qed.

Lemma elems_join es : Forall properElem es -> elems (joinSlash es) = es.
Proof.
  intros Hes. unfold elems. destruct es as [|e es]; [done|].
  rewrite splitSlash_join; [|done|].
  - apply forallb_filter_id. apply forallb_forall. intros x Hx.
    rewrite Forall_forall in Hes. apply list_elem_of_In in Hx.
    destruct (Hes x Hx) as (Hx0 & _). by apply negb_true_iff, String.eqb_neq.
  - eapply Forall_impl; [done|]. by intros x (_ & _ & _ & ?).
Qed.

Lemma elems_rooted es : Forall properElem es -> elems ("/" +:+ joinSlash es) = es.
Proof. intros Hes. by apply elems_join in Hes. Qed.

(** In a rooted path the element loop leaves proper elements only. *)
Lemma cleanElems_proper es out :
  Forall (fun e => noSlash e = true) es ->
  Forall properElem out ->
  Forall properElem (cleanElems true es out).
Proof.
  intros Hes. revert out. induction Hes as [|e es He Hes IH]; intros out Hout; [done|].
  cbn [cleanElems negb].
  destruct (String.eqb_spec e "") as [->|H0]; [by apply IH|].
  destruct (String.eqb_spec e ".") as [->|H1]; [by apply IH|]. cbn [orb].
  destruct (String.eqb_spec e "..") as [->|H2].
  - destruct out as [|top out]; [by apply IH|].
    inversion_clear Hout as [|?? Htop Hout'].
    destruct (String.eqb_spec top "..") as [->|_]; cbn [negb].
    + by destruct Htop as (_ & _ & ? & _).
    + by apply IH.
  - apply IH. by constructor.
Qed.

(** On proper elements the loop only pushes. *)
Lemma cleanElems_id es out :
  Forall properElem es -> cleanElems true es out = rev es ++ out.
Proof.
  intros Hes. revert out.
  induction Hes as [|e es (H0 & H1 & H2 & _) Hes IH]; intros out; [done|].
  cbn [cleanElems].
  apply String.eqb_neq in H0, H1, H2. rewrite H0, H1, H2. cbn [orb].
  rewrite IH. cbn [rev]. by rewrite <- app_assoc.
Qed.

(** The elements of a cleaned rooted path are what the loop left. *)
Lemma elems_Clean p :
  HasPrefix p "/" = true ->
  Clean p = "/" +:+ joinSlash (rev (cleanElems true (splitSlash p) [])) /\
  elems (Clean p) = rev (cleanElems true (splitSlash p) []) /\
  Forall properElem (elems (Clean p)).
Proof.
  intros Hp. unfold Clean. rewrite Hp.
  assert (Forall properElem (rev (cleanElems true (splitSlash p) []))) as Hl.
  { apply Forall_rev, cleanElems_proper; [apply splitSlash_noSlash|done]. }
  rewrite elems_rooted by done. done.
Qed.

(** Cleaning a cleaned rooted path changes nothing. *)
Lemma Clean_idempotent p : HasPrefix p "/" = true -> Clean (Clean p) = Clean p.
Proof.
  intros Hp. destruct (elems_Clean p Hp) as (Heq & _ & _).
  assert (Forall properElem (rev (cleanElems true (splitSlash p) []))) as Hl.
  { apply Forall_rev, cleanElems_proper; [apply splitSlash_noSlash|done]. }
  set (l := rev (cleanElems true (splitSlash p) [])) in *.
  rewrite Heq. unfold Clean at 1.
  change (HasPrefix ("/" +:+ joinSlash l) "/") with true. cbv iota.
  f_equal. f_equal.
  change (splitSlash ("/" +:+ joinSlash l)) with ("" :: splitSlash (joinSlash l)).
  cbn [cleanElems]. change (String.eqb "" "" || String.eqb "" ".") with true. cbv iota.
  destruct l as [|e l'] eqn:El; [done|].
  rewrite splitSlash_join; [|done|].
  - rewrite cleanElems_id by done. by rewrite app_nil_r, rev_involutive.
  - eapply Forall_impl; [done|]. by intros x (_ & _ & _ & ?).
Qed.
End Canonical.

(** The elements of a canonical path are proper: no "." and no ".." is
    left in it. *)
Lemma canonical_proper path : Forall properElem (GoPath.elems (canonical path)).
Proof.
  unfold canonical, GoPath.IsAbs. cbv zeta.
  apply elems_Clean.
  by destruct (GoStrings.HasPrefix (GoPath.Clean path) "/") eqn:Hp.
Qed.

Lemma canonical_root (config : Config) :
  GoPath.IsAbs (VirtualDir config) = true ->
  canonical (VirtualDir config) = GoPath.Clean (VirtualDir config).
Proof.
  intros Habs. unfold canonical, GoPath.IsAbs in *. cbv zeta.
  rewrite Clean_rooted by done. cbn [negb]. by apply Clean_idempotent.
Qed.

(** A path that resolves outside the root is refused. *)
Lemma isPathAllowed_outside (config : Config) (path : string) :
  GoPath.IsAbs (VirtualDir config) = true ->
  ~ insideRoot config path ->
  isPathAllowed config path = false.
Proof.
  intros Habs Hout. apply not_true_is_false. intros Hok.
  apply isPathAllowed_iff in Hok as (rest & Hrest & _); [|done].
  apply Hout. by exists rest.
Qed.

(** The root itself is allowed. *)
Lemma isPathAllowed_root (config : Config) :
  GoPath.IsAbs (VirtualDir config) = true ->
  isPathAllowed config (VirtualDir config) = true.
Proof.
  intros Habs. apply isPathAllowed_iff; [done|].
  exists []. by rewrite canonical_root, app_nil_r.
Qed.

(** A path inside the root is allowed when its first element below the
    root does not begin with "..". *)
Lemma isPathAllowed_inside (config : Config) (path : string) (rest : list string) :
  GoPath.IsAbs (VirtualDir config) = true ->
  GoPath.elems (canonical path)
    = GoPath.elems (GoPath.Clean (VirtualDir config)) ++ rest ->
  match rest with
  | [] => True
  | e :: _ => GoStrings.HasPrefix e ".." = false
  end ->
  isPathAllowed config path = true.
Proof. intros Habs Hrest He. apply isPathAllowed_iff; [done|]. by exists rest. Qed.

(** C1 at a failing input.  With the virtual root /uploads, the path
    /uploads/..notes.txt is in canonical form, names a file directly in
    the root (its elements are "uploads" and "..notes.txt": it resolves
    inside the root), and the guard refuses it, because the path relative
    to the root, "..notes.txt", begins with the two bytes "..". *)
Lemma isPathAllowed_refuses_name_with_leading_dots :
  let config := testConfig "/uploads" in
  let path := "/uploads/..notes.txt" in
  canonical path = path /\
  GoPath.elems (canonical path) = ["uploads"; "..notes.txt"] /\
  insideRoot config path /\
  GoPath.Rel (VirtualDir config) path = Some "..notes.txt" /\
  isPathAllowed config path = false.
Proof.
  cbv zeta. split_and!; try (vm_compute; reflexivity).
  exists ["..notes.txt"]. vm_compute. reflexivity.
Qed.

(* ===================================================================== *)
(** * Part III. Further properties of the code                            *)
(* ===================================================================== *)

(** ** Loading the configuration (config.go) *)

Section Settings.
Context {A : Type} (parse : string -> error + A) (msg : string) (field : A).

Lemma setting_inr v x :
  setting v parse msg field = inr x <-> valueOf parse v field x.
Proof.
  unfold setting, valueOf. destruct (String.eqb v ""); cbn [negb].
  - split; [by intros [= ->]|by intros ->].
  - destruct (parse v); split; by intros [= ->].
Qed.

Lemma setting_usable v :
  (exists x, setting v parse msg field = inr x) <-> usable parse v.
Proof.
  unfold setting, usable. destruct (String.eqb_spec v "") as [->|Hne]; cbn [negb].
  - split; [by left|by eexists].
  - destruct (parse v) as [e|x].
    + split; [by intros [? [=]]|]. by intros [?|[? [=]]].
    + split; [by right; eexists|by eexists].
Qed.

Lemma setting_inl v e :
  setting v parse msg field = inl e <->
  v <> "" /\ exists err, parse v = inl err /\ e = wrapError msg err.
Proof.
  unfold setting. destruct (String.eqb_spec v "") as [->|Hne]; cbn [negb].
  - split; [done|by intros [? _]].
  - destruct (parse v) as [err|x].
    + split; [intros [= <-]; eauto|]. by intros (_ & ? & [= <-] & ->).
    + split; [done|]. by intros (_ & ? & [=] & _).
Qed.
End Settings.

(** [ParseInt] and [Atoi] at the edges: signs, the ends of the [int64]
    range, overflow found before a wrong byte, and what is no number. *)
Example ParseInt_edges :
  GoStrconv.ParseInt "+12" = inr 12 /\
  GoStrconv.ParseInt "-0" = inr 0 /\
  GoStrconv.ParseInt "007" = inr 7 /\
  GoStrconv.ParseInt "9223372036854775807" = inr (2 ^ 63 - 1) /\
  GoStrconv.ParseInt "-9223372036854775808" = inr (- 2 ^ 63) /\
  GoStrconv.ParseInt "9223372036854775808"
    = inl (GoStrconv.NumError "ParseInt" "9223372036854775808" GoStrconv.ErrRange) /\
  GoStrconv.ParseInt "99999999999999999999x"
    = inl (GoStrconv.NumError "ParseInt" "99999999999999999999x" GoStrconv.ErrRange) /\
  GoStrconv.Atoi "" = inl (GoStrconv.NumError "Atoi" "" GoStrconv.ErrSyntax) /\
  GoStrconv.Atoi "-" = inl (GoStrconv.NumError "Atoi" "-" GoStrconv.ErrSyntax) /\
  GoStrconv.Atoi "1_000" = inl (GoStrconv.NumError "Atoi" "1_000" GoStrconv.ErrSyntax) /\
  GoStrconv.Atoi " 1" = inl (GoStrconv.NumError "Atoi" " 1" GoStrconv.ErrSyntax) /\
  GoStrconv.Atoi "70000" = inr 70000.
Proof. split_and!; vm_compute; reflexivity. Qed.

(** The tests of the repository for [LoadConfig]: the defaults, the
    custom values, an invalid number, the two required variables. *)
Example LoadConfig_tests :
  let required : gmap string string :=
    list_to_map [("S3_BUCKET", "test-bucket"); ("AWS_ACCOUNT_ID", "123456789012")] in
  LoadConfig demoDuration required
    = inr (mkConfig 2222 "/uploads" (1024 * 1024) "test-bucket" "" "" "123456789012" 100,
           mkTimeouts (30 * Second) (30 * Second) (30 * Second)) /\
  LoadConfig demoDuration demoEnv = inr (demoConfig, demoTimeouts) /\
  LoadConfig demoDuration (<["SFTP_PORT" := "invalid"]> required)
    = inl (wrapError "invalid SFTP_PORT"
             (GoStrconv.NumError "Atoi" "invalid" GoStrconv.ErrSyntax)) /\
  LoadConfig demoDuration (<["READ_TIMEOUT" := "invalid"]> required)
    = inl (wrapError "invalid read_TIMEOUT" (errorString "time: invalid duration")) /\
  LoadConfig demoDuration ∅
    = inl (errorString "S3_BUCKET environment variable is required") /\
  LoadConfig demoDuration (<["S3_BUCKET" := "test-bucket"]> ∅)
    = inl (errorString "AWS_ACCOUNT_ID environment variable is required").
Proof. cbv zeta. split_and!; vm_compute; reflexivity. Qed.

(** X1.  [LoadConfig] returns a configuration exactly when the two required
    variables are not empty and each of the six parsed variables is
    empty or accepted by its parser.  Nothing else is checked: no range
    of the port, of the size or of the number of connections. *)
Theorem LoadConfig_succeeds_iff (ParseDuration : string -> error + Z)
    (env : gmap string string) :
  (exists c t, LoadConfig ParseDuration env = inr (c, t)) <->
  usable GoStrconv.Atoi (Getenv env "SFTP_PORT") /\
  usable GoStrconv.ParseInt (Getenv env "MAX_FILE_SIZE") /\
  Getenv env "S3_BUCKET" <> "" /\
  Getenv env "AWS_ACCOUNT_ID" <> "" /\
  usable ParseDuration (Getenv env "CONNECTION_TIMEOUT") /\
  usable ParseDuration (Getenv env "READ_TIMEOUT") /\
  usable ParseDuration (Getenv env "WRITE_TIMEOUT") /\
  usable GoStrconv.Atoi (Getenv env "MAX_CONNECTIONS").
Proof.
  rewrite <- (setting_usable GoStrconv.Atoi "invalid SFTP_PORT" 2222
                (Getenv env "SFTP_PORT")),
          <- (setting_usable GoStrconv.ParseInt "invalid MAX_FILE_SIZE" (1024 * 1024)
                (Getenv env "MAX_FILE_SIZE")),
          <- (setting_usable ParseDuration "invalid CONNECTION_TIMEOUT" (30 * Second)
                (Getenv env "CONNECTION_TIMEOUT")),
          <- (setting_usable ParseDuration "invalid read_TIMEOUT" (30 * Second)
                (Getenv env "READ_TIMEOUT")),
          <- (setting_usable ParseDuration "invalid WRITE_TIMEOUT" (30 * Second)
                (Getenv env "WRITE_TIMEOUT")),
          <- (setting_usable GoStrconv.Atoi "invalid MAX_CONNECTIONS" 100
                (Getenv env "MAX_CONNECTIONS")).
  unfold LoadConfig. cbv zeta.
  destruct (setting (Getenv env "SFTP_PORT") _ _ _) as [e1|port];
    [split; [by intros (? & ? & [=])|by intros ([? [=]] & _)]|].
  destruct (setting (Getenv env "MAX_FILE_SIZE") _ _ _) as [e2|size];
    [split; [by intros (? & ? & [=])|by intros (_ & [? [=]] & _)]|].
  destruct (String.eqb_spec (Getenv env "S3_BUCKET") "") as [Hb|Hb];
    [split; [by intros (? & ? & [=])|by intros (_ & _ & ? & _)]|].
  destruct (String.eqb_spec (Getenv env "AWS_ACCOUNT_ID") "") as [Ha|Ha];
    [split; [by intros (? & ? & [=])|by intros (_ & _ & _ & ? & _)]|].
  destruct (setting (Getenv env "CONNECTION_TIMEOUT") _ _ _) as [e3|ct];
    [split; [by intros (? & ? & [=])|by intros (_ & _ & _ & _ & [? [=]] & _)]|].
  destruct (setting (Getenv env "READ_TIMEOUT") _ _ _) as [e4|rt];
    [split; [by intros (? & ? & [=])|by intros (_ & _ & _ & _ & _ & [? [=]] & _)]|].
  destruct (setting (Getenv env "WRITE_TIMEOUT") _ _ _) as [e5|wt];
    [split; [by intros (? & ? & [=])|by intros (_ & _ & _ & _ & _ & _ & [? [=]] & _)]|].
  destruct (setting (Getenv env "MAX_CONNECTIONS") _ _ _) as [e6|mc];
    [split; [by intros (? & ? & [=])|by intros (_ & _ & _ & _ & _ & _ & _ & [? [=]])]|].
  split; [|by eauto]. intros _. split_and!; eauto.
Qed.

(** The fields of a loaded configuration. *)
Lemma LoadConfig_fields (ParseDuration : string -> error + Z)
    (env : gmap string string) (c : Config) (t : Timeouts) :
  LoadConfig ParseDuration env = inr (c, t) ->
  valueOf GoStrconv.Atoi (Getenv env "SFTP_PORT") 2222 (ServerPort c) /\
  VirtualDir c
    = normalizeVirtualDir (if String.eqb (Getenv env "VIRTUAL_DIR") "" then "/uploads"
                           else Getenv env "VIRTUAL_DIR") /\
  valueOf GoStrconv.ParseInt (Getenv env "MAX_FILE_SIZE") (1024 * 1024) (MaxFileSize c) /\
  Getenv env "S3_BUCKET" <> "" /\
  S3Bucket c = Getenv env "S3_BUCKET" /\
  S3BucketPrefix c = Getenv env "S3_BUCKET_PREFIX" /\
  S3Region c = Getenv env "AWS_REGION" /\
  Getenv env "AWS_ACCOUNT_ID" <> "" /\
  RequiredAccountID c = Getenv env "AWS_ACCOUNT_ID" /\
  valueOf ParseDuration (Getenv env "CONNECTION_TIMEOUT") (30 * Second)
          (ConnectionTimeout t) /\
  valueOf ParseDuration (Getenv env "READ_TIMEOUT") (30 * Second) (ReadTimeout t) /\
  valueOf ParseDuration (Getenv env "WRITE_TIMEOUT") (30 * Second) (WriteTimeout t) /\
  valueOf GoStrconv.Atoi (Getenv env "MAX_CONNECTIONS") 100 (MaxConnections c).
Proof.
  rewrite <- (setting_inr GoStrconv.Atoi "invalid SFTP_PORT"),
          <- (setting_inr GoStrconv.ParseInt "invalid MAX_FILE_SIZE"),
          <- (setting_inr ParseDuration "invalid CONNECTION_TIMEOUT"),
          <- (setting_inr ParseDuration "invalid read_TIMEOUT"),
          <- (setting_inr ParseDuration "invalid WRITE_TIMEOUT"),
          <- (setting_inr GoStrconv.Atoi "invalid MAX_CONNECTIONS").
  unfold LoadConfig. cbv zeta.
  destruct (setting (Getenv env "SFTP_PORT") _ _ _) as [e1|port]; [done|].
  destruct (setting (Getenv env "MAX_FILE_SIZE") _ _ _) as [e2|size]; [done|].
  destruct (String.eqb_spec (Getenv env "S3_BUCKET") "") as [Hb|Hb]; [done|].
  destruct (String.eqb_spec (Getenv env "AWS_ACCOUNT_ID") "") as [Ha|Ha]; [done|].
  destruct (setting (Getenv env "CONNECTION_TIMEOUT") _ _ _) as [e3|ct]; [done|].
  destruct (setting (Getenv env "READ_TIMEOUT") _ _ _) as [e4|rt]; [done|].
  destruct (setting (Getenv env "WRITE_TIMEOUT") _ _ _) as [e5|wt]; [done|].
  destruct (setting (Getenv env "MAX_CONNECTIONS") _ _ _) as [e6|mc]; [done|].
  intros [= <- <-]. cbn.
  by destruct (String.eqb (Getenv env "VIRTUAL_DIR") "").
Qed.

(** X2.  What [LoadConfig] returns: a configuration and timeouts are its
    result exactly when the required bucket and account are not empty and
    are the ones of the result, the prefix and the region are taken as
    they are, the virtual directory (by default /uploads) is cleaned and
    made absolute, and each parsed field is its default when its variable
    is empty and what the parser gives otherwise. *)
Theorem LoadConfig_returns (ParseDuration : string -> error + Z)
    (env : gmap string string) (c : Config) (t : Timeouts) :
  LoadConfig ParseDuration env = inr (c, t) <->
  valueOf GoStrconv.Atoi (Getenv env "SFTP_PORT") 2222 (ServerPort c) /\
  VirtualDir c
    = normalizeVirtualDir (if String.eqb (Getenv env "VIRTUAL_DIR") "" then "/uploads"
                           else Getenv env "VIRTUAL_DIR") /\
  valueOf GoStrconv.ParseInt (Getenv env "MAX_FILE_SIZE") (1024 * 1024) (MaxFileSize c) /\
  Getenv env "S3_BUCKET" <> "" /\
  S3Bucket c = Getenv env "S3_BUCKET" /\
  S3BucketPrefix c = Getenv env "S3_BUCKET_PREFIX" /\
  S3Region c = Getenv env "AWS_REGION" /\
  Getenv env "AWS_ACCOUNT_ID" <> "" /\
  RequiredAccountID c = Getenv env "AWS_ACCOUNT_ID" /\
  valueOf ParseDuration (Getenv env "CONNECTION_TIMEOUT") (30 * Second)
          (ConnectionTimeout t) /\
  valueOf ParseDuration (Getenv env "READ_TIMEOUT") (30 * Second) (ReadTimeout t) /\
  valueOf ParseDuration (Getenv env "WRITE_TIMEOUT") (30 * Second) (WriteTimeout t) /\
  valueOf GoStrconv.Atoi (Getenv env "MAX_CONNECTIONS") 100 (MaxConnections c).
Proof.
  split; [apply LoadConfig_fields|].
  intros (Hport & Hv & Hsize & Hb & HB & HP & HR & Ha & HA & Hct & Hrt & Hwt & Hmc).
  apply (setting_inr _ "invalid SFTP_PORT") in Hport.
  apply (setting_inr _ "invalid MAX_FILE_SIZE") in Hsize.
  apply (setting_inr _ "invalid CONNECTION_TIMEOUT") in Hct.
  apply (setting_inr _ "invalid read_TIMEOUT") in Hrt.
  apply (setting_inr _ "invalid WRITE_TIMEOUT") in Hwt.
  apply (setting_inr _ "invalid MAX_CONNECTIONS") in Hmc.
  apply String.eqb_neq in Hb, Ha.
  unfold LoadConfig. cbv zeta.
  rewrite Hport, Hsize, Hb, Ha, Hct, Hrt, Hwt, Hmc.
  destruct c, t. cbn in *. subst.
  by destruct (String.eqb (Getenv env "VIRTUAL_DIR") "").
Qed.

(** X3.  A required variable that is empty or not set ends [LoadConfig] with
    its own error, provided the two numbers read before it (the port and
    the file size) are usable: the bucket is asked for first, the account
    after it. *)
Theorem LoadConfig_required (ParseDuration : string -> error + Z)
    (env : gmap string string) :
  usable GoStrconv.Atoi (Getenv env "SFTP_PORT") ->
  usable GoStrconv.ParseInt (Getenv env "MAX_FILE_SIZE") ->
  (Getenv env "S3_BUCKET" = "" ->
   LoadConfig ParseDuration env
     = inl (errorString "S3_BUCKET environment variable is required")) /\
  (Getenv env "S3_BUCKET" <> "" -> Getenv env "AWS_ACCOUNT_ID" = "" ->
   LoadConfig ParseDuration env
     = inl (errorString "AWS_ACCOUNT_ID environment variable is required")).
Proof.
  intros [port Hport]%(setting_usable _ "invalid SFTP_PORT" 2222)
         [size Hsize]%(setting_usable _ "invalid MAX_FILE_SIZE" (1024 * 1024)).
  unfold LoadConfig. cbv zeta. rewrite Hport, Hsize. split.
  - by intros ->.
  - intros Hb%String.eqb_neq ->. by rewrite Hb.
Qed.

Lemma LoadConfig_required_witness :
  (Getenv ∅ "S3_BUCKET" = "" ->
   LoadConfig demoDuration ∅
     = inl (errorString "S3_BUCKET environment variable is required")) /\
  (Getenv ∅ "S3_BUCKET" <> "" -> Getenv ∅ "AWS_ACCOUNT_ID" = "" ->
   LoadConfig demoDuration ∅
     = inl (errorString "AWS_ACCOUNT_ID environment variable is required")).
Proof.
  apply (LoadConfig_required demoDuration ∅).
  - left. reflexivity.
  - left. reflexivity.
Defined.

Lemma Getenv_insert_empty (env : gmap string string) (k key : string) :
  Getenv (<[k := ""]> env) key = Getenv (delete k env) key.
Proof.
  unfold Getenv. destruct (decide (k = key)) as [->|Hne].
  - by rewrite lookup_insert_eq, lookup_delete_eq.
  - by rewrite lookup_insert_ne, lookup_delete_ne.
Qed.

(** X4.  [LoadConfig] cannot tell a variable that is set to the empty string
    from one that is not set: whatever the variable, both environments
    give the same result (the same configuration or the same error). *)
Theorem LoadConfig_empty_is_unset (ParseDuration : string -> error + Z)
    (env : gmap string string) (k : string) :
  LoadConfig ParseDuration (<[k := ""]> env) = LoadConfig ParseDuration (delete k env).
Proof.
  unfold LoadConfig. by rewrite !Getenv_insert_empty.
Qed.

Lemma normalizeVirtualDir_abs (vdir : string) :
  GoPath.IsAbs (normalizeVirtualDir vdir) = true.
Proof.
  unfold normalizeVirtualDir. cbv zeta.
  by destruct (GoPath.IsAbs (GoPath.Clean vdir)) eqn:Habs.
Qed.

(** X5.  The virtual root of every configuration that [LoadConfig] returns is
    absolute, whatever VIRTUAL_DIR holds; so in the running server the
    guard allows the root itself and refuses every path that resolves
    outside of it. *)
Theorem loaded_root_is_guarded (ParseDuration : string -> error + Z)
    (env : gmap string string) (c : Config) (t : Timeouts) :
  LoadConfig ParseDuration env = inr (c, t) ->
  GoPath.IsAbs (VirtualDir c) = true /\
  isPathAllowed c (VirtualDir c) = true /\
  (forall path, ~ insideRoot c path -> isPathAllowed c path = false).
Proof.
  intros (_ & Hv & _)%LoadConfig_fields.
  assert (GoPath.IsAbs (VirtualDir c) = true) as Habs
    by (rewrite Hv; apply normalizeVirtualDir_abs).
  split_and!; [done|by apply isPathAllowed_root|].
  intros path. by apply isPathAllowed_outside.
Qed.

Lemma loaded_root_is_guarded_witness :
  GoPath.IsAbs (VirtualDir demoConfig) = true /\
  isPathAllowed demoConfig (VirtualDir demoConfig) = true /\
  (forall path, ~ insideRoot demoConfig path -> isPathAllowed demoConfig path = false).
Proof.
  apply (loaded_root_is_guarded demoDuration demoEnv demoConfig demoTimeouts).
  vm_compute. reflexivity.
Defined.

(** X6.  The file size is not validated: a negative MAX_FILE_SIZE is loaded
    as it is, and with it the session handler panics on every request to
    open a write (the buffer is made before the path is looked at), while
    [SFTPHandler.Filewrite] panics for the allowed paths and refuses the
    others. *)
Theorem negative_MaxFileSize_panics (ParseDuration : string -> error + Z)
    (env : gmap string string) (c : Config) (t : Timeouts) (n : Z)
    (sh : SessionSFTPHandler) (r : Request) (st : Store) :
  LoadConfig ParseDuration env = inr (c, t) ->
  GoStrconv.ParseInt (Getenv env "MAX_FILE_SIZE") = inr n ->
  n < 0 ->
  config (handler sh) = c ->
  MaxFileSize c = n /\
  SessionFilewrite sh r st = (Panic "makeslice: cap out of range", st) /\
  Filewrite (handler sh) r st
    = if isPathAllowed c (Filepath r)
      then (Panic "makeslice: cap out of range", st)
      else (Err ErrPermission, st).
Proof.
  intros (_ & _ & Hsize & _)%LoadConfig_fields Hparse Hneg Hc.
  assert (MaxFileSize c = n) as Hn.
  { unfold valueOf in Hsize.
    destruct (String.eqb_spec (Getenv env "MAX_FILE_SIZE") "") as [He|_].
    - by rewrite He in Hparse.
    - rewrite Hparse in Hsize. by injection Hsize. }
  split; [done|].
  assert ((MaxFileSize (config (handler sh)) <? 0) = true) as Hlt
    by (rewrite Hc, Hn; apply Z.ltb_lt; done).
  unfold SessionFilewrite, Filewrite. rewrite Hlt, Hc.
  split; [done|]. by destruct (isPathAllowed c (Filepath r)).
Qed.

Lemma negative_MaxFileSize_panics_witness :
  let env := <["MAX_FILE_SIZE" := "-1"]> demoEnv in
  let c := mkConfig 2223 "/custom-uploads" (-1) "custom-bucket" "uploads/sftp"
                    "us-west-2" "987654321098" 50 in
  let sh := mkSessionSFTPHandler (runHandler c (fun _ => mkTime 2023 12 25 10 30 0))
                                 "127.0.0.1" "test-key" "test-secret" "987654321098" in
  let r := mkRequest "Put" "/custom-uploads/a.txt" ∅ in
  MaxFileSize c = -1 /\
  SessionFilewrite sh r emptyStore = (Panic "makeslice: cap out of range", emptyStore) /\
  Filewrite (handler sh) r emptyStore
    = if isPathAllowed c (Filepath r)
      then (Panic "makeslice: cap out of range", emptyStore)
      else (Err ErrPermission, emptyStore).
Proof.
  cbv zeta.
  apply (negative_MaxFileSize_panics demoDuration (<["MAX_FILE_SIZE" := "-1"]> demoEnv)
           _ demoTimeouts (-1)).
  - vm_compute. reflexivity.
  - vm_compute. reflexivity.
  - lia.
  - reflexivity.
Defined.

(** ** The stores the handler reaches (sftp_handler.go, main.go) *)

Section WellFormed.
Variables (aws : AWS) (h : SFTPHandler).

Lemma fresh_upload_unused st (fw : FileWriter) :
  is_Some (uploads st !! upload fw) -> upload fw <> fresh (dom (uploads st)).
Proof.
  intros Hu Heq. apply (is_fresh (dom (uploads st))).
  rewrite <- Heq. by apply elem_of_dom.
Qed.

Lemma fresh_writer_unused st w fw :
  writers st !! w = Some fw -> w <> fresh (dom (writers st)).
Proof.
  intros Hw Heq. apply (is_fresh (dom (writers st))).
  rewrite <- Heq. apply elem_of_dom. eauto.
Qed.

Lemma wellFormed_storeUpload up st :
  wellFormed st -> wellFormed (snd (storeUpload up st)).
Proof.
  intros (Hex & Hinj & Hreg & Hopen). unfold storeUpload. cbn [snd].
  set (u := fresh (dom (uploads st))). set (w := fresh (dom (writers st))).
  assert (forall w' fw', writers st !! w' = Some fw' -> upload fw' <> u) as Hu.
  { intros w' fw' Hw'. apply fresh_upload_unused. eauto. }
  split_and!; cbn [uploads writers activeUploads].
  - intros w' fw' [[<- <-]|[Hne Hw']]%lookup_insert_Some.
    + cbn. rewrite lookup_insert_eq. eauto.
    + rewrite lookup_insert_ne by (symmetry; eauto). eauto.
  - intros w1 w2 fw1 fw2 [[<- <-]|[Hne1 Hw1]]%lookup_insert_Some
                         [[<- <-]|[Hne2 Hw2]]%lookup_insert_Some; cbn; try done.
    + intros Heq. symmetry in Heq. by apply Hu in Hw2.
    + intros Heq. by apply Hu in Hw1.
    + eauto.
  - intros p u' [[<- <-]|[Hne Hp]]%lookup_insert_Some.
    + exists up. by rewrite lookup_insert_eq.
    + destruct (Hreg p u' Hp) as (up' & Hup' & Hpath). exists up'.
      rewrite lookup_insert_ne; [done|].
      intros <-. apply (is_fresh (dom (uploads st))). apply elem_of_dom. eauto.
  - intros p w' fw' Hp [[<- <-]|[Hne Hw']]%lookup_insert_Some; [done|].
    apply lookup_insert_Some in Hp as [[_ Heq]|[_ Hp]]; [|eauto].
    symmetry in Heq. by apply Hu in Hw'.
Qed.

Lemma wellFormed_SessionFilewrite sh r st :
  wellFormed st -> wellFormed (snd (SessionFilewrite sh r st)).
Proof.
  intros Hwf. unfold SessionFilewrite. repeat case_match; try done.
  match goal with H : storeUpload ?up st = _ |- _ =>
    pose proof (wellFormed_storeUpload up st Hwf) as Hwf'; by rewrite H in Hwf' end.
Qed.

Lemma wellFormed_WriteAt w p off st :
  wellFormed st -> wellFormed (snd (WriteAt h w p off st)).
Proof.
  intros (Hex & Hinj & Hreg & Hopen). unfold WriteAt.
  destruct (writers st !! w) as [fw|] eqn:Hw; [|done].
  destruct (uploads st !! upload fw) as [up|] eqn:Hu; [|done].
  destruct (closed fw); [done|].
  destruct (writeBuffer _ _ _ _) as [res data']. cbn [snd].
  split_and!; cbn [uploads writers activeUploads]; [| done | | done].
  - intros w' fw' Hw'. apply lookup_insert_is_Some'. eauto.
  - intros p' u' Hp. destruct (Hreg p' u' Hp) as (up' & Hup' & Hpath).
    destruct (decide (upload fw = u')) as [<-|Hne].
    + rewrite lookup_insert_eq. eexists. split; [done|]. cbn. by simplify_eq.
    + exists up'. by rewrite lookup_insert_ne.
Qed.

Lemma wellFormed_Close w st :
  wellFormed st -> wellFormed (snd (Close aws h w st)).
Proof.
  intros (Hex & Hinj & Hreg & Hopen). unfold Close.
  destruct (writers st !! w) as [fw|] eqn:Hw; [|done].
  destruct (uploads st !! upload fw) as [up|] eqn:Hu; [|done].
  destruct (closed fw) eqn:Hc; [done|].
  destruct (UploadFile _ _ _ _ _ _ _) as [err made].
  assert (wellFormed
            (mkStore (uploads st) (<[w := mkFileWriter (upload fw) true]> (writers st))
                     (delete (path up) (activeUploads st)) (calls st ++ made))) as H';
    [|by destruct err].
  split_and!; cbn [uploads writers activeUploads].
  - intros w' fw' [[<- <-]|[Hne Hw']]%lookup_insert_Some; cbn; eauto.
  - intros w1 w2 fw1 fw2 [[<- <-]|[Hne1 Hw1]]%lookup_insert_Some
                         [[<- <-]|[Hne2 Hw2]]%lookup_insert_Some; cbn; try done.
    + intros Heq. eapply Hinj; eauto.
    + intros Heq. eapply Hinj; eauto.
    + eauto.
  - intros p u [_ Hp]%lookup_delete_Some. eauto.
  - intros p w' fw' [Hne Hp]%lookup_delete_Some [[<- <-]|[Hnew Hw']]%lookup_insert_Some.
    + cbn in Hp. destruct (Hreg p _ Hp) as (up' & Hup' & Hpath). by simplify_eq.
    + eauto.
Qed.

Lemma wellFormed_exec op st : wellFormed st -> wellFormed (exec aws h st op).
Proof.
  destruct op; cbn [exec];
    [apply wellFormed_SessionFilewrite | apply wellFormed_WriteAt | apply wellFormed_Close].
Qed.

Lemma wellFormed_execAll ops st :
  wellFormed st -> wellFormed (execAll aws h st ops).
Proof.
  revert st. induction ops as [|op ops IH]; intros st Hwf; [done|].
  cbn [execAll fold_left]. by apply IH, wellFormed_exec.
Qed.

Lemma wellFormed_empty : wellFormed emptyStore.
Proof. split_and!; cbn; intros *; by rewrite ?lookup_empty. Qed.
End WellFormed.

(** X7.  Whatever sessions open and whatever is written and closed, in any
    order and on any addresses, the store stays well formed: every writer
    has its upload, no two writers share an upload, every registered
    upload exists under its own path, and the registry never holds the
    upload of a closed writer.  So no [WriteAt] and no [Close] on a
    writer of the store dereferences nil. *)
Theorem reachable_store_wellFormed (aws : AWS) (h : SFTPHandler) (ops : list Op) :
  let st := execAll aws h emptyStore ops in
  wellFormed st /\
  (forall w fw p off,
     writers st !! w = Some fw ->
     fst (WriteAt h w p off st) <> Panic nilDereference /\
     fst (Close aws h w st) <> Panic nilDereference).
Proof.
  cbv zeta.
  pose proof (wellFormed_execAll aws h ops _ wellFormed_empty) as Hwf.
  split; [done|].
  intros w fw p off Hw.
  destruct Hwf as (Hex & _). destruct (Hex w fw Hw) as [up Hu].
  unfold WriteAt, Close. rewrite Hw, Hu. split.
  - destruct (closed fw); [done|].
    destruct (writeBuffer _ _ _ _) as [res data'] eqn:Hwb. cbn [fst].
    unfold writeBuffer in Hwb. cbv zeta in Hwb.
    repeat case_match; by simplify_eq.
  - destruct (closed fw); [done|].
    by destruct (UploadFile _ _ _ _ _ _ _) as [[e|] made].
Qed.

(** X8.  A write changes the buffer of its own writer only: in a store the
    handler has reached, the upload of any other writer is after the call
    what it was before (also when both were opened for the same path),
    and the writers, the registry and the calls made are untouched. *)
Theorem WriteAt_touches_one_buffer (aws : AWS) (h : SFTPHandler) (ops : list Op)
    (w : addr) (p : list byte) (off : Z) (w' : addr) (fw' : FileWriter) :
  let st := execAll aws h emptyStore ops in
  let st' := snd (WriteAt h w p off st) in
  writers st !! w' = Some fw' ->
  w' <> w ->
  uploads st' !! upload fw' = uploads st !! upload fw' /\
  writers st' = writers st /\
  activeUploads st' = activeUploads st /\
  calls st' = calls st.
Proof.
  cbv zeta. intros Hw' Hne.
  destruct (wellFormed_execAll aws h ops _ wellFormed_empty) as (_ & Hinj & _).
  unfold WriteAt.
  destruct (writers _ !! w) as [fw|] eqn:Hw; [|done].
  destruct (uploads _ !! upload fw) as [up|] eqn:Hu; [|done].
  destruct (closed fw); [done|].
  destruct (writeBuffer _ _ _ _) as [res data']. cbn [snd uploads writers activeUploads calls].
  split_and!; try done.
  rewrite lookup_insert_ne; [done|].
  intros Heq. apply Hne. symmetry. eapply Hinj; eauto.
Qed.

Lemma WriteAt_touches_one_buffer_witness :
  let r := mkRequest "Put" "/uploads/a.txt" ∅ in
  let ops := [OpFilewrite demoSession r; OpFilewrite demoSession r] in
  let st := execAll demoAWS demoHandler emptyStore ops in
  let st' := snd (WriteAt demoHandler 1%nat [x01; x02] 0 st) in
  uploads st' !! upload (mkFileWriter 0%nat false)
    = uploads st !! upload (mkFileWriter 0%nat false) /\
  writers st' = writers st /\
  activeUploads st' = activeUploads st /\
  calls st' = calls st.
Proof.
  cbv zeta.
  apply (WriteAt_touches_one_buffer demoAWS demoHandler
           [OpFilewrite demoSession (mkRequest "Put" "/uploads/a.txt" ∅);
            OpFilewrite demoSession (mkRequest "Put" "/uploads/a.txt" ∅)]
           1%nat [x01; x02] 0 0%nat (mkFileWriter 0%nat false)).
  - vm_compute. reflexivity.
  - discriminate.
Defined.

(** ** The life of a writer (sftp_handler.go, [WriteAt] and [Close]) *)

Section Closed.
Variables (aws : AWS) (h : SFTPHandler) (w : addr).

Lemma isClosed_storeUpload up st :
  isClosed w st -> isClosed w (snd (storeUpload up st)).
Proof.
  intros (fw & Hw & Hc & Hu). exists fw. unfold storeUpload. cbn [snd writers uploads].
  split_and!; [|done|].
  - rewrite lookup_insert_ne; [done|]. symmetry. by eapply fresh_writer_unused.
  - rewrite lookup_insert_ne; [done|]. symmetry. by apply fresh_upload_unused.
Qed.

Lemma isClosed_exec op st : isClosed w st -> isClosed w (exec aws h st op).
Proof.
  intros Hcl. destruct op as [sh r|w' p off|w']; cbn [exec].
  - unfold SessionFilewrite. repeat case_match; try done.
    match goal with H : storeUpload ?up st = _ |- _ =>
      pose proof (isClosed_storeUpload up st Hcl) as Hcl'; by rewrite H in Hcl' end.
  - unfold WriteAt.
    destruct (writers st !! w') as [fw'|] eqn:Hw'; [|done].
    destruct (uploads st !! upload fw') as [up'|] eqn:Hu'; [|done].
    destruct (closed fw'); [done|].
    destruct (writeBuffer _ _ _ _) as [res data']. cbn [snd].
    destruct Hcl as (fw & Hw & Hc & Hu). exists fw. cbn [writers uploads].
    split_and!; [done|done|]. by apply lookup_insert_is_Some'; right.
  - unfold Close.
    destruct (writers st !! w') as [fw'|] eqn:Hw'; [|done].
    destruct (uploads st !! upload fw') as [up'|] eqn:Hu'; [|done].
    destruct (closed fw') eqn:Hc'; [done|].
    destruct (UploadFile _ _ _ _ _ _ _) as [err made].
    destruct Hcl as (fw & Hw & Hc & Hu).
    assert (w' <> w) as Hne by (intros ->; congruence).
    assert (isClosed w
              (mkStore (uploads st) (<[w' := mkFileWriter (upload fw') true]> (writers st))
                       (delete (path up') (activeUploads st)) (calls st ++ made))) as H';
      [|by destruct err].
    exists fw. cbn [writers uploads]. by rewrite lookup_insert_ne.
Qed.

Lemma isClosed_execAll ops st : isClosed w st -> isClosed w (execAll aws h st ops).
Proof.
  revert st. induction ops as [|op ops IH]; intros st Hcl; [done|].
  cbn [execAll fold_left]. by apply IH, isClosed_exec.
Qed.

Lemma isClosed_Close fw st :
  writers st !! w = Some fw ->
  is_Some (uploads st !! upload fw) ->
  isClosed w (snd (Close aws h w st)).
Proof.
  intros Hw [up Hu]. unfold Close. rewrite Hw, Hu.
  destruct (closed fw) eqn:Hc.
  { exists fw. cbn. eauto. }
  destruct (UploadFile _ _ _ _ _ _ _) as [err made].
  assert (isClosed w
            (mkStore (uploads st) (<[w := mkFileWriter (upload fw) true]> (writers st))
                     (delete (path up) (activeUploads st)) (calls st ++ made))) as H';
    [|by destruct err].
  exists (mkFileWriter (upload fw) true). cbn [writers uploads upload closed].
  rewrite lookup_insert_eq. eauto.
Qed.
End Closed.

(** X9.  A close is final.  After the first [Close] of a writer, whether its
    upload succeeded or failed, and whatever is opened, written or closed
    afterwards, a further [Close] of it returns nil and a [WriteAt] on it
    returns [os.ErrClosed]; neither changes the store, so the buffer is
    handed to the uploader at most once and a failed upload is not tried
    again. *)
Theorem Close_is_final (aws : AWS) (h : SFTPHandler) (w : addr) (fw : FileWriter)
    (st : Store) (ops : list Op) (p : list byte) (off : Z) :
  writers st !! w = Some fw ->
  is_Some (uploads st !! upload fw) ->
  let st' := execAll aws h (snd (Close aws h w st)) ops in
  Close aws h w st' = (Ok None, st') /\
  WriteAt h w p off st' = (Err ErrClosed, st').
Proof.
  intros Hw Hu. cbv zeta.
  destruct (isClosed_execAll aws h w ops _ (isClosed_Close aws h w fw st Hw Hu))
    as (fw' & Hw' & Hc' & up' & Hu').
  set (st' := execAll aws h _ ops) in *.
  unfold Close, WriteAt. by rewrite Hw', Hu', Hc'.
Qed.

Lemma Close_is_final_witness :
  let st' := execAll demoAWS demoHandler (snd (Close demoAWS demoHandler 0%nat demoStore))
               [OpWriteAt 0%nat [x01] 0; OpClose 0%nat] in
  Close demoAWS demoHandler 0%nat st' = (Ok None, st') /\
  WriteAt demoHandler 0%nat [x01] 0 st' = (Err ErrClosed, st').
Proof.
  apply (Close_is_final demoAWS demoHandler 0%nat (mkFileWriter 0%nat false) demoStore
           [OpWriteAt 0%nat [x01] 0; OpClose 0%nat] [x01] 0).
  - vm_compute. reflexivity.
  - vm_compute. eauto.
Defined.

(** [Close] on an open writer, in one equation. *)
Lemma Close_open (aws : AWS) (h : SFTPHandler) (w : addr) (fw : FileWriter)
    (up : FileUpload) (st : Store) :
  writers st !! w = Some fw ->
  closed fw = false ->
  uploads st !! upload fw = Some up ->
  let done := UploadFile aws (uploader h) (accessKey up) (secretKey up) (clientIP up)
                         (path up) (data up) in
  Close aws h w st =
    (Ok (option_map (wrapError "upload failed") (fst done)),
     mkStore (uploads st) (<[w := mkFileWriter (upload fw) true]> (writers st))
             (delete (path up) (activeUploads st)) (calls st ++ snd done)).
Proof.
  intros Hw Hopen Hu. cbv zeta. unfold Close. rewrite Hw, Hu, Hopen.
  by destruct (UploadFile _ _ _ _ _ _ _) as [[e|] made].
Qed.

(** X10.  The first [Close] of an open writer, whatever becomes of the upload:
    the writer is marked closed, the registry entry of its path is
    deleted and no buffer changes.  When the SDK configuration does not
    load, no call is made and the error comes back wrapped twice; when it
    loads, exactly one object is put, with the buffer as body, and the
    error of that call, if any, comes back wrapped twice. *)
Theorem Close_outcomes (aws : AWS) (h : SFTPHandler) (w : addr) (fw : FileWriter)
    (up : FileUpload) (st : Store) :
  writers st !! w = Some fw ->
  closed fw = false ->
  uploads st !! upload fw = Some up ->
  let cfg := uploadOptions h up in
  let res := Close aws h w st in
  writers (snd res) = <[w := mkFileWriter (upload fw) true]> (writers st) /\
  activeUploads (snd res) = delete (path up) (activeUploads st) /\
  uploads (snd res) = uploads st /\
  (forall e, LoadDefaultConfig aws cfg = Some e ->
     fst res = Ok (Some (wrapError "upload failed"
                           (wrapError "failed to configure AWS client" e))) /\
     calls (snd res) = calls st) /\
  (LoadDefaultConfig aws cfg = None ->
     exists input,
       calls (snd res) = calls st ++ [S3PutObject cfg input] /\
       Body input = data up /\
       fst res = match PutObject aws cfg input with
                 | Some e => Ok (Some (wrapError "upload failed"
                                         (wrapError "failed to upload to S3" e)))
                 | None => Ok None
                 end).
Proof.
  intros Hw Hopen Hu. cbv zeta. unfold Close. rewrite Hw, Hu, Hopen.
  unfold UploadFile. cbv zeta. fold (uploadOptions h up).
  destruct (LoadDefaultConfig aws (uploadOptions h up)) as [e|].
  { cbn. rewrite app_nil_r. split_and!; try done. by intros ? [= ->]. }
  match goal with |- context [PutObject aws ?c ?i] =>
    set (input := i); destruct (PutObject aws c input) as [e|] eqn:Hput end;
    cbn [fst snd writers uploads activeUploads calls];
    (split_and!; [done|done|done|done|]);
    intros _; exists input; by rewrite Hput.
Qed.

Lemma Close_outcomes_witness :
  let cfg := uploadOptions demoHandler demoUpload in
  let res := Close demoAWS demoHandler 0%nat demoStore in
  writers (snd res)
    = <[0%nat := mkFileWriter (upload (mkFileWriter 0%nat false)) true]> (writers demoStore) /\
  activeUploads (snd res) = delete (path demoUpload) (activeUploads demoStore) /\
  uploads (snd res) = uploads demoStore /\
  (forall e, LoadDefaultConfig demoAWS cfg = Some e ->
     fst res = Ok (Some (wrapError "upload failed"
                           (wrapError "failed to configure AWS client" e))) /\
     calls (snd res) = calls demoStore) /\
  (LoadDefaultConfig demoAWS cfg = None ->
     exists input,
       calls (snd res) = calls demoStore ++ [S3PutObject cfg input] /\
       Body input = data demoUpload /\
       fst res = match PutObject demoAWS cfg input with
                 | Some e => Ok (Some (wrapError "upload failed"
                                         (wrapError "failed to upload to S3" e)))
                 | None => Ok None
                 end).
Proof.
  apply (Close_outcomes demoAWS demoHandler 0%nat (mkFileWriter 0%nat false)
           demoUpload demoStore).
  - vm_compute. reflexivity.
  - reflexivity.
  - vm_compute. reflexivity.
Defined.

Lemma SessionFilewrite_Ok sh r st w st1 :
  SessionFilewrite sh r st = (Ok w, st1) ->
  storeUpload (mkFileUpload [] (Filepath r) (sessClientIP sh) (accessKeyID sh)
                 (secretAccessKey sh)) st = (w, st1).
Proof.
  unfold SessionFilewrite. repeat case_match; try done. by intros [= <- <-].
Qed.

(** X11.  [Close] deletes the registry entry of its path, not of its upload.
    When a path is opened a second time while the first writer is open,
    the registry holds the second upload; the close of the first writer
    then removes that entry, and the second writer stays open with an
    upload the registry no longer knows. *)
Theorem Close_unregisters_reopened_path (aws : AWS) (h : SFTPHandler)
    (sh1 sh2 : SessionSFTPHandler) (r1 r2 : Request) (st st1 st2 : Store)
    (w1 w2 : addr) :
  SessionFilewrite sh1 r1 st = (Ok w1, st1) ->
  SessionFilewrite sh2 r2 st1 = (Ok w2, st2) ->
  Filepath r2 = Filepath r1 ->
  let st3 := snd (Close aws h w1 st2) in
  exists u1 u2,
    u1 <> u2 /\
    writers st2 !! w1 = Some (mkFileWriter u1 false) /\
    writers st2 !! w2 = Some (mkFileWriter u2 false) /\
    activeUploads st2 !! Filepath r1 = Some u2 /\
    activeUploads st3 !! Filepath r1 = None /\
    writers st3 !! w2 = Some (mkFileWriter u2 false) /\
    is_Some (uploads st3 !! u2).
Proof.
  intros H1%SessionFilewrite_Ok H2%SessionFilewrite_Ok Hpath. cbv zeta.
  unfold storeUpload in H1, H2. injection H1 as <- <-. injection H2 as <- <-.
  cbn [uploads writers activeUploads calls path] in *.
  set (u1 := fresh (dom (uploads st))). set (w1 := fresh (dom (writers st))).
  set (up1 := mkFileUpload [] (Filepath r1) _ _ _).
  set (u2 := fresh (dom (<[u1 := up1]> (uploads st)))).
  set (w2 := fresh (dom (<[w1 := mkFileWriter u1 false]> (writers st)))).
  assert (u1 <> u2) as Hu.
  { intros Heq. apply (is_fresh (dom (<[u1 := up1]> (uploads st)))).
    fold u2. rewrite <- Heq. apply elem_of_dom. rewrite lookup_insert_eq. eauto. }
  assert (w1 <> w2) as Hw.
  { intros Heq. apply (is_fresh (dom (<[w1 := mkFileWriter u1 false]> (writers st)))).
    fold w2. rewrite <- Heq. apply elem_of_dom. rewrite lookup_insert_eq. eauto. }
  exists u1, u2. rewrite Hpath.
  set (up2 := mkFileUpload [] (Filepath r1) _ _ _).
  rewrite (Close_open aws h w1 (mkFileWriter u1 false) up1).
  - cbn [snd writers uploads activeUploads path up1].
    split_and!; [done|..].
    + by rewrite lookup_insert_ne, lookup_insert_eq.
    + by rewrite lookup_insert_eq.
    + by rewrite lookup_insert_eq.
    + by rewrite lookup_delete_eq.
    + by rewrite lookup_insert_ne, lookup_insert_eq.
    + rewrite lookup_insert_eq. eauto.
  - cbn [writers]. by rewrite lookup_insert_ne, lookup_insert_eq.
  - done.
  - cbn [uploads upload]. by rewrite lookup_insert_ne, lookup_insert_eq.
Qed.

Lemma Close_unregisters_reopened_path_witness :
  let r := mkRequest "Put" "/uploads/a.txt" ∅ in
  let st1 := snd (SessionFilewrite demoSession r emptyStore) in
  let st2 := snd (SessionFilewrite demoSession r st1) in
  let st3 := snd (Close demoAWS demoHandler 0%nat st2) in
  exists u1 u2,
    u1 <> u2 /\
    writers st2 !! 0%nat = Some (mkFileWriter u1 false) /\
    writers st2 !! 1%nat = Some (mkFileWriter u2 false) /\
    activeUploads st2 !! Filepath r = Some u2 /\
    activeUploads st3 !! Filepath r = None /\
    writers st3 !! 1%nat = Some (mkFileWriter u2 false) /\
    is_Some (uploads st3 !! u2).
Proof.
  apply (Close_unregisters_reopened_path demoAWS demoHandler demoSession demoSession
           (mkRequest "Put" "/uploads/a.txt" ∅) (mkRequest "Put" "/uploads/a.txt" ∅)
           emptyStore
           (snd (SessionFilewrite demoSession (mkRequest "Put" "/uploads/a.txt" ∅)
                   emptyStore))
           (snd (SessionFilewrite demoSession (mkRequest "Put" "/uploads/a.txt" ∅)
                   (snd (SessionFilewrite demoSession
                           (mkRequest "Put" "/uploads/a.txt" ∅) emptyStore))))
           0%nat 1%nat).
  - vm_compute. reflexivity.
  - vm_compute. reflexivity.
  - reflexivity.
Defined.

(** X12.  A negative offset is not refused.  On an open writer, a write at an
    offset below zero returns the size error only when its end lies
    beyond the maximum; otherwise the slice expression [data[off:]]
    panics, and the call does not return. *)
Theorem WriteAt_negative_offset (h : SFTPHandler) (w : addr) (fw : FileWriter)
    (up : FileUpload) (st : Store) (p : list byte) (off : Z) :
  writers st !! w = Some fw ->
  closed fw = false ->
  uploads st !! upload fw = Some up ->
  - 2 ^ 63 <= off < 0 ->
  Z.of_nat (length p) <= maxInt64 ->
  fst (WriteAt h w p off st)
    = if off + Z.of_nat (length p) >? MaxFileSize (config h)
      then Err tooLarge
      else Panic "slice bounds out of range".
Proof.
  intros Hw Hopen Hu Hoff Hlen.
  rewrite (WriteAt_open h w fw Hopen st up) by done. cbn [fst].
  unfold writeBuffer. cbv zeta.
  rewrite wrap64_small by (unfold maxInt64 in *; lia).
  destruct (_ >? _); [done|].
  by destruct (Z.ltb_spec off 0); [|lia].
Qed.

Lemma WriteAt_negative_offset_witness :
  fst (WriteAt demoHandler 0%nat [x01] (-1) demoStore)
    = if -1 + Z.of_nat (length [x01]) >? MaxFileSize (config demoHandler)
      then Err tooLarge
      else Panic "slice bounds out of range".
Proof.
  apply (WriteAt_negative_offset demoHandler 0%nat (mkFileWriter 0%nat false)
           demoUpload demoStore [x01] (-1)).
  - vm_compute. reflexivity.
  - reflexivity.
  - vm_compute. reflexivity.
  - lia.
  - vm_compute. discriminate.
Defined.

(** ** The calls of the handler *)

Section Calls.
Variables (aws : AWS) (h : SFTPHandler).

Lemma UploadFile_calls accessKeyID secretAccessKey clientIP filePath data :
  let made := snd (UploadFile aws (uploader h) accessKeyID secretAccessKey clientIP
                              filePath data) in
  Forall (uploadCall h) made /\ (length made <= 1)%nat.
Proof.
  cbv zeta. unfold UploadFile. cbv zeta.
  destruct (LoadDefaultConfig aws _); [by split; [constructor|cbn; lia]|].
  match goal with |- context [PutObject aws ?c ?i] => destruct (PutObject aws c i) end;
    (split; [|cbn; lia]); repeat constructor;
    eexists _, _, filePath; split_and!; try reflexivity.
Qed.

Lemma exec_calls op st :
  exists made,
    calls (exec aws h st op) = calls st ++ made /\
    Forall (uploadCall h) made /\
    (length made <= closes [op])%nat.
Proof.
  assert (forall st', calls st' = calls st ->
            exists made, calls st' = calls st ++ made /\ Forall (uploadCall h) made /\
                         (length made <= closes [op])%nat) as Hnone.
  { intros st' ->. exists []. rewrite app_nil_r. split_and!; [done|done|cbn; lia]. }
  destruct op as [sh r|w p off|w]; cbn [exec].
  - apply Hnone. unfold SessionFilewrite, storeUpload. by repeat case_match.
  - apply Hnone. unfold WriteAt. by repeat case_match.
  - unfold Close.
    destruct (writers st !! w) as [fw|]; [|by apply Hnone].
    destruct (uploads st !! upload fw) as [up|]; [|by apply Hnone].
    destruct (closed fw); [by apply Hnone|].
    pose proof (UploadFile_calls (accessKey up) (secretKey up) (clientIP up)
                  (path up) (data up)) as [Hall Hlen].
    destruct (UploadFile _ _ _ _ _ _ _) as [err made]. cbn [snd] in *.
    exists made. by destruct err.
Qed.

Lemma execAll_calls ops st :
  exists made,
    calls (execAll aws h st ops) = calls st ++ made /\
    Forall (uploadCall h) made /\
    (length made <= closes ops)%nat.
Proof.
  revert st. induction ops as [|op ops IH]; intros st.
  { exists []. by rewrite app_nil_r. }
  cbn [execAll fold_left].
  destruct (exec_calls op st) as (m1 & H1 & Hall1 & Hlen1).
  destruct (IH (exec aws h st op)) as (m2 & H2 & Hall2 & Hlen2).
  exists (m1 ++ m2). unfold execAll in *. rewrite H2, H1, app_assoc.
  split_and!; [done|by apply Forall_app|].
  rewrite length_app. unfold closes in *. cbn [List.filter] in *.
  destruct op; cbn [length] in *; lia.
Qed.
End Calls.

(** X13.  What the handler asks of AWS.  Over any operations of any sessions,
    the calls already made stay as they are, and every call added puts an
    object into the uploader's bucket, in its region, under the key
    derived from the path of an upload: the identity service is not
    called, and nothing is read, listed or deleted.  Opening and writing
    make no call, and each close makes at most one. *)
Theorem handler_only_uploads (aws : AWS) (h : SFTPHandler) (st : Store)
    (ops : list Op) :
  exists made,
    calls (execAll aws h st ops) = calls st ++ made /\
    Forall (uploadCall h) made /\
    (forall cfg, STSGetCallerIdentity cfg ∉ made) /\
    (length made <= closes ops)%nat.
Proof.
  destruct (execAll_calls aws h ops st) as (made & Hcalls & Hall & Hlen).
  exists made. split_and!; [done|done| |done].
  intros cfg Hin. rewrite Forall_forall in Hall.
  by destruct (Hall _ Hin) as (cfg' & input & filePath & [=] & _).
Qed.

(** ** From the environment to the services ([LoadConfig], [Run],
       [Authenticate], the handler) *)

(** X14.  In a server that runs on a loaded configuration, an authentication
    succeeds only for a non-empty identifier and secret whose caller
    identity, asked once from STS in the region of AWS_REGION, names the
    account of AWS_ACCOUNT_ID; that variable is never empty, so an answer
    with an empty account is not admitted.  The session then binds that
    account. *)
Theorem loaded_server_admits_configured_account
    (ParseDuration : string -> error + Z) (env : gmap string string)
    (c : Config) (t : Timeouts) (aws : AWS) (conn : ConnMetadata)
    (password : list byte) (perms : Permissions) (trace : list Call) :
  LoadConfig ParseDuration env = inr (c, t) ->
  Authenticate aws (runAuth c) conn password = (Ok perms, trace) ->
  let cfg := presented (runAuth c) conn password in
  User conn <> "" /\
  string_of_list_byte password <> "" /\
  optRegion cfg = withRegion (Getenv env "AWS_REGION") /\
  LoadDefaultConfig aws cfg = None /\
  trace = [STSGetCallerIdentity cfg] /\
  (exists out, GetCallerIdentity aws cfg = inr out /\
               Account out = Some (Getenv env "AWS_ACCOUNT_ID")) /\
  Getenv env "AWS_ACCOUNT_ID" <> "" /\
  perms = session conn password (Getenv env "AWS_ACCOUNT_ID").
Proof.
  intros (_ & _ & _ & _ & _ & _ & HR & Ha & HA & _)%LoadConfig_fields. cbv zeta.
  unfold Authenticate, presented, session, runAuth. cbn [requiredAccountID authRegion].
  rewrite HR, HA.
  destruct (String.eqb_spec (User conn) "") as [|Hid]; [done|].
  destruct (String.eqb_spec (string_of_list_byte password) "") as [|Hsec]; [done|].
  cbn [orb].
  destruct (LoadDefaultConfig aws _) as [e|]; [done|].
  destruct (GetCallerIdentity aws _) as [e|out] eqn:Hout; [done|].
  destruct (Account out) as [acct|] eqn:Hacct; [|done].
  destruct (String.eqb_spec acct (Getenv env "AWS_ACCOUNT_ID")) as [->|Hne]; [|done].
  cbn [negb]. intros [= <- <-]. split_and!; try done. by exists out.
Qed.

Lemma loaded_server_admits_configured_account_witness :
  let aws := mkAWS (fun _ => None)
                   (fun _ => inr (mkIdentity (Some "987654321098") None None))
                   (fun _ _ => None) in
  let cfg := presented (runAuth demoConfig) demoConn [x73; x33] in
  User demoConn <> "" /\
  string_of_list_byte [x73; x33] <> "" /\
  optRegion cfg = withRegion (Getenv demoEnv "AWS_REGION") /\
  LoadDefaultConfig aws cfg = None /\
  [STSGetCallerIdentity cfg] = [STSGetCallerIdentity cfg] /\
  (exists out, GetCallerIdentity aws cfg = inr out /\
               Account out = Some (Getenv demoEnv "AWS_ACCOUNT_ID")) /\
  Getenv demoEnv "AWS_ACCOUNT_ID" <> "" /\
  session demoConn [x73; x33] "987654321098"
    = session demoConn [x73; x33] (Getenv demoEnv "AWS_ACCOUNT_ID").
Proof.
  cbv zeta.
  apply (loaded_server_admits_configured_account demoDuration demoEnv demoConfig
           demoTimeouts
           (mkAWS (fun _ => None)
                  (fun _ => inr (mkIdentity (Some "987654321098") None None))
                  (fun _ _ => None))
           demoConn [x73; x33]).
  - vm_compute. reflexivity.
  - reflexivity.
Defined.

(** X15.  In a server that runs on a loaded configuration, every object the
    handler puts, over any operations of any sessions, goes to the bucket
    of S3_BUCKET, with the region of AWS_REGION when that is set, under
    the key derived with the prefix of S3_BUCKET_PREFIX. *)
Theorem loaded_server_uploads_to_configured_bucket
    (ParseDuration : string -> error + Z) (env : gmap string string)
    (c : Config) (t : Timeouts) (now : unit -> Time) (aws : AWS) (ops : list Op) :
  LoadConfig ParseDuration env = inr (c, t) ->
  Forall
    (fun call =>
       exists cfg input filePath,
         call = S3PutObject cfg input /\
         Bucket input = Getenv env "S3_BUCKET" /\
         optRegion cfg = withRegion (Getenv env "AWS_REGION") /\
         Key input
           = generateS3Key (NewS3Uploader (Getenv env "S3_BUCKET")
                              (Getenv env "S3_BUCKET_PREFIX")
                              (Getenv env "AWS_REGION") now) filePath)
    (calls (execAll aws (runHandler c now) emptyStore ops)).
Proof.
  intros (_ & _ & _ & _ & HB & HP & HR & _)%LoadConfig_fields.
  destruct (execAll_calls aws (runHandler c now) ops emptyStore)
    as (made & -> & Hall & _).
  cbn [calls emptyStore app].
  eapply Forall_impl; [done|].
  intros call (cfg & input & filePath & -> & Hbucket & Hkey & _ & Hregion).
  exists cfg, input, filePath.
  unfold runHandler, runUploader in *. cbn [uploader bucket region] in *.
  rewrite HB, HP, HR in *. done.
Qed.

Lemma loaded_server_uploads_to_configured_bucket_witness :
  let now := fun _ : unit => mkTime 2023 12 25 10 30 0 in
  let sh := mkSessionSFTPHandler (runHandler demoConfig now) "127.0.0.1" "test-key"
                                 "test-secret" "987654321098" in
  let ops := [OpFilewrite sh (mkRequest "Put" "/custom-uploads/a.txt" ∅);
              OpWriteAt 0%nat [x01] 0; OpClose 0%nat] in
  Forall
    (fun call =>
       exists cfg input filePath,
         call = S3PutObject cfg input /\
         Bucket input = Getenv demoEnv "S3_BUCKET" /\
         optRegion cfg = withRegion (Getenv demoEnv "AWS_REGION") /\
         Key input
           = generateS3Key (NewS3Uploader (Getenv demoEnv "S3_BUCKET")
                              (Getenv demoEnv "S3_BUCKET_PREFIX")
                              (Getenv demoEnv "AWS_REGION") now) filePath)
    (calls (execAll demoAWS (runHandler demoConfig now) emptyStore ops)).
Proof.
  cbv zeta.
  apply (loaded_server_uploads_to_configured_bucket demoDuration demoEnv demoConfig
           demoTimeouts).
  vm_compute. reflexivity.
Defined.

(** The upload of that example, computed: one object, in the bucket
    and under the prefix of the environment. *)
Example loaded_server_upload_demo :
  let now := fun _ : unit => mkTime 2023 12 25 10 30 0 in
  let sh := mkSessionSFTPHandler (runHandler demoConfig now) "127.0.0.1" "test-key"
                                 "test-secret" "987654321098" in
  let ops := [OpFilewrite sh (mkRequest "Put" "/custom-uploads/a.txt" ∅);
              OpWriteAt 0%nat [x01] 0; OpClose 0%nat] in
  List.map (fun call => match call with
                        | S3PutObject _ input => (Bucket input, Key input, Body input)
                        | STSGetCallerIdentity _ => ("", "", [])
                        end)
           (calls (execAll demoAWS (runHandler demoConfig now) emptyStore ops))
    = [("custom-bucket", "uploads/sftp/2023-12-25/a.txt", [x01])].
Proof. vm_compute. reflexivity. Qed.

(** ** The two handlers (sftp_handler.go and main.go) *)

(** X16.  [SFTPHandler.Filewrite] on a request whose context carries what the
    session holds does what [SessionSFTPHandler.Filewrite] does, except
    when the maximum file size is negative and the path is not allowed:
    the session handler makes the buffer before it checks the path and
    panics where the other refuses.  The two [Filecmd] agree on every
    request. *)
Theorem Filewrite_agrees_with_session (sh : SessionSFTPHandler) (r : Request)
    (st : Store) :
  contextValue r "client_ip" = sessClientIP sh ->
  contextValue r "access_key_id" = accessKeyID sh ->
  contextValue r "secret_access_key" = secretAccessKey sh ->
  (Filewrite (handler sh) r st = SessionFilewrite sh r st <->
   0 <= MaxFileSize (config (handler sh)) \/
   isPathAllowed (config (handler sh)) (Filepath r) = true) /\
  Filecmd (handler sh) r = SessionFilecmd sh r.
Proof.
  intros Hip Hkey Hsecret. split; [|done].
  unfold Filewrite, SessionFilewrite. rewrite Hip, Hkey, Hsecret.
  destruct (isPathAllowed _ _), (Z.ltb_spec (MaxFileSize (config (handler sh))) 0);
    cbn [negb].
  - split; [by right|done].
  - split; [by left|done].
  - split; [done|]. intros [?|?]; [lia|done].
  - split; [by left|done].
Qed.

Lemma Filewrite_agrees_with_session_witness :
  let r := mkRequest "Put" "/uploads/a.txt"
             (<["client_ip" := "127.0.0.1"]>
              (<["access_key_id" := "test-key"]>
               (<["secret_access_key" := "test-secret"]> ∅))) in
  (Filewrite (handler demoSession) r emptyStore = SessionFilewrite demoSession r emptyStore <->
   0 <= MaxFileSize (config (handler demoSession)) \/
   isPathAllowed (config (handler demoSession)) (Filepath r) = true) /\
  Filecmd (handler demoSession) r = SessionFilecmd demoSession r.
Proof.
  cbv zeta. apply Filewrite_agrees_with_session; vm_compute; reflexivity.
Defined.

(** ** The path guard, continued (sftp_handler.go, [isPathAllowed]) *)

(** X17.  The verdict of the guard in every case, for an absolute virtual
    root: a path that resolves outside the root is refused, and a path
    that resolves to the root followed by the elements [rest] is allowed
    exactly when [rest] is empty or its first element does not begin with
    two dots (whatever follows that element). *)
Theorem isPathAllowed_verdict (config : Config) (path : string) :
  GoPath.IsAbs (VirtualDir config) = true ->
  (~ insideRoot config path -> isPathAllowed config path = false) /\
  (forall rest,
     GoPath.elems (canonical path)
       = GoPath.elems (GoPath.Clean (VirtualDir config)) ++ rest ->
     isPathAllowed config path
       = match rest with
         | [] => true
         | e :: _ => negb (GoStrings.HasPrefix e "..")
         end).
Proof.
  intros Habs. split; [by apply isPathAllowed_outside|].
  intros rest Hrest.
  destruct (isPathAllowed config path) eqn:Hok.
  - apply isPathAllowed_iff in Hok as (rest' & Hrest' & Hfirst); [|done].
    rewrite Hrest in Hrest'. apply app_inv_head in Hrest' as ->.
    destruct rest'; [done|]. by rewrite Hfirst.
  - destruct rest as [|e rest'].
    + rewrite (isPathAllowed_inside config path []) in Hok; done.
    + destruct (GoStrings.HasPrefix e "..") eqn:He; [done|].
      rewrite (isPathAllowed_inside config path (e :: rest')) in Hok; done.
Qed.

Lemma isPathAllowed_verdict_witness :
  let config := testConfig "/uploads" in
  let path := "/uploads/a/../b.txt" in
  (~ insideRoot config path -> isPathAllowed config path = false) /\
  (forall rest,
     GoPath.elems (canonical path)
       = GoPath.elems (GoPath.Clean (VirtualDir config)) ++ rest ->
     isPathAllowed config path
       = match rest with
         | [] => true
         | e :: _ => negb (GoStrings.HasPrefix e "..")
         end).
Proof.
  cbv zeta. apply isPathAllowed_verdict. vm_compute. reflexivity.
Defined.

Section Relative.
Import GoStrings GoPath.

(** The unrooted loop leaves what the rooted loop leaves, on top of the
    ".." elements it could not go back over. *)
Lemma cleanElems_unrooted es :
  forall out k,
    Forall (fun e => e <> "..") out ->
    exists k',
      cleanElems false es (out ++ replicate k "..")
        = cleanElems true es out ++ replicate k' "..".
Proof.
  induction es as [|e es IH]; intros out k Hout; [by exists k|].
  cbn [cleanElems negb].
  destruct (String.eqb e "" || String.eqb e "."); [by apply IH|].
  destruct (String.eqb_spec e "..") as [->|Hne].
  - destruct out as [|top out'].
    + cbn [app]. destruct k as [|k]; cbn [replicate].
      * apply (IH [] 1%nat). constructor.
      * cbn. apply (IH [] (S (S k))). constructor.
    + cbn [app]. inversion Hout as [|? ? Htop Hout']; subst.
      apply String.eqb_neq in Htop. rewrite Htop. cbn [negb]. by apply IH.
  - apply (IH (e :: out) k). by constructor.
Qed.

Lemma rev_replicate {A : Type} (k : nat) (x : A) : rev (replicate k x) = replicate k x.
Proof. rewrite rev_alt. apply (reverse_replicate k x). Qed.

Lemma cleanElems_dotdots k es :
  cleanElems true (replicate k ".." ++ es) [] = cleanElems true es [].
Proof. induction k as [|k IH]; [done|]. cbn. apply IH. Qed.

Lemma joinSlash_first e es :
  e <> "" -> noSlash e = true ->
  HasPrefix (joinSlash (e :: es)) "/" = false /\ joinSlash (e :: es) <> "".
Proof.
  intros He Hs. destruct e as [|c e]; [done|].
  cbn [noSlash] in Hs. apply andb_true_iff in Hs as [Hc _].
  apply negb_true_iff in Hc.
  destruct es as [|e' es].
  - cbn [joinSlash]. rewrite HasPrefix_cons.
    change (Ascii.eqb c "/") with (Ascii.eqb c Separator). by rewrite Hc.
  - change (joinSlash (String c e :: e' :: es))
      with (String c e +:+ String Separator (joinSlash (e' :: es))).
    rewrite append_cons, HasPrefix_cons.
    change (Ascii.eqb c "/") with (Ascii.eqb c Separator). by rewrite Hc.
Qed.

(** A separator in front of a rooted path adds an empty element. *)
Lemma Clean_slash_rooted q : HasPrefix q "/" = true -> Clean ("/" +:+ q) = Clean q.
Proof.
  intros Hq. unfold Clean. rewrite Hq.
  change (HasPrefix ("/" +:+ q) "/") with true. cbv iota.
  change (splitSlash ("/" +:+ q)) with ("" :: splitSlash q). done.
Qed.

Lemma Clean_slash p : Clean ("/" +:+ Clean p) = Clean ("/" +:+ p).
Proof.
  destruct (HasPrefix p "/") eqn:Hp.
  - rewrite !Clean_slash_rooted by (done || by apply Clean_rooted).
    by apply Clean_idempotent.
  - destruct (cleanElems_unrooted (splitSlash p) [] 0 ltac:(constructor))
      as (k & Hk). cbn [app replicate] in Hk.
    assert (Forall properElem (cleanElems true (splitSlash p) [])) as Hproper
      by (apply cleanElems_proper; [apply splitSlash_noSlash|done]).
    set (T := cleanElems true (splitSlash p) []) in *.
    assert (Clean ("/" +:+ p) = "/" +:+ joinSlash (rev T)) as ->.
    { unfold Clean. change (HasPrefix ("/" +:+ p) "/") with true. cbv iota.
      change (splitSlash ("/" +:+ p)) with ("" :: splitSlash p). done. }
    unfold Clean at 2. rewrite Hp, Hk. cbv zeta iota.
    rewrite rev_app_distr, rev_replicate.
    set (l := replicate k ".." ++ rev T).
    assert (Forall (fun e => e <> "" /\ noSlash e = true) l) as Hl.
    { apply Forall_app. split.
      - apply Forall_forall. by intros x [-> _]%elem_of_replicate.
      - apply Forall_rev. eapply Forall_impl; [done|]. by intros x (? & _ & _ & ?). }
    destruct l as [|e l'] eqn:El.
    + (* nothing is left: the cleaned path is "." *)
      apply app_eq_nil in El as [_ HT]. rewrite HT. done.
    + inversion Hl as [|? ? [He Hs] Hl']; subst.
      destruct (joinSlash_first e l' He Hs) as [Hrooted Hne].
      apply String.eqb_neq in Hne. rewrite Hne.
      unfold Clean. change (HasPrefix ("/" +:+ joinSlash (e :: l')) "/") with true.
      cbv iota.
      change (splitSlash ("/" +:+ joinSlash (e :: l')))
        with ("" :: splitSlash (joinSlash (e :: l'))).
      cbn [cleanElems]. change (String.eqb "" "" || String.eqb "" ".") with true.
      cbv iota.
      rewrite splitSlash_join;
        [|done|eapply Forall_impl; [exact Hl|]; by intros x [_ ?]].
      rewrite <- El. unfold l. rewrite cleanElems_dotdots.
      rewrite cleanElems_id by (by apply Forall_rev).
      by rewrite app_nil_r, rev_involutive.
Qed.

Lemma canonical_slash p : canonical ("/" +:+ p) = canonical p.
Proof.
  unfold canonical, IsAbs. cbv zeta.
  rewrite (Clean_rooted ("/" +:+ p)) by done. cbn [negb].
  rewrite Clean_idempotent by done.
  destruct (HasPrefix (Clean p) "/") eqn:Hc; cbn [negb].
  - destruct (HasPrefix p "/") eqn:Hp.
    + rewrite Clean_slash_rooted by done. symmetry. by apply Clean_idempotent.
    + (* an unrooted path is not cleaned to a rooted one *)
      exfalso. unfold Clean in Hc. rewrite Hp in Hc. cbv zeta in Hc.
      destruct (cleanElems_unrooted (splitSlash p) [] 0 ltac:(constructor))
        as (k & Hk). cbn [app replicate] in Hk. rewrite Hk in Hc.
      assert (Forall properElem (cleanElems true (splitSlash p) [])) as Hproper
        by (apply cleanElems_proper; [apply splitSlash_noSlash|done]).
      rewrite rev_app_distr, rev_replicate in Hc.
      set (l := replicate k ".." ++ rev (cleanElems true (splitSlash p) [])) in *.
      assert (Forall (fun e => e <> "" /\ noSlash e = true) l) as Hl.
      { apply Forall_app. split.
        - apply Forall_forall. by intros x [-> _]%elem_of_replicate.
        - apply Forall_rev. eapply Forall_impl; [done|]. by intros x (? & _ & _ & ?). }
      destruct l as [|e l']; [done|].
      inversion Hl as [|? ? [He Hs] Hl']; subst.
      destruct (joinSlash_first e l' He Hs) as [Hrooted Hne].
      apply String.eqb_neq in Hne. rewrite Hne in Hc. congruence.
  - symmetry. apply Clean_slash.
Qed.
End Relative.

Lemma isPathAllowed_by_canonical (config : Config) (p q : string) :
  canonical p = canonical q -> isPathAllowed config p = isPathAllowed config q.
Proof.
  intros Heq. unfold isPathAllowed, GoPath.Rel. cbv zeta.
  fold (canonical p). fold (canonical q). by rewrite Heq.
Qed.

(** X18.  The guard reads a relative path from the root of the file system,
    not from the virtual root: a path and the same path behind a
    separator get the same verdict, so with the root /uploads the path
    uploads/a.txt is allowed and the path a.txt is refused.  In general
    the verdict depends on a path through its canonical form only. *)
Theorem isPathAllowed_relative (config : Config) (path : string) :
  isPathAllowed config ("/" +:+ path) = isPathAllowed config path /\
  (forall other, canonical other = canonical path ->
     isPathAllowed config other = isPathAllowed config path) /\
  isPathAllowed (testConfig "/uploads") "uploads/a.txt" = true /\
  isPathAllowed (testConfig "/uploads") "a.txt" = false.
Proof.
  split_and!.
  - apply isPathAllowed_by_canonical, canonical_slash.
  - intros other. apply isPathAllowed_by_canonical.
  - vm_compute. reflexivity.
  - vm_compute. reflexivity.
Qed.

(** ** The key of an object, continued ([S3Uploader.generateS3Key]) *)

Section BaseName.
Import GoStrings GoPath.

Lemma splitSlash_app a b :
  splitSlash (a +:+ String Separator b) = splitSlash a ++ splitSlash b.
Proof.
  induction a as [|c a IH]; [done|].
  rewrite append_cons. cbn [splitSlash]. rewrite IH.
  destruct (Ascii.eqb c Separator); [done|].
  pose proof (splitSlash_nonempty a) as Hne.
  by destruct (splitSlash a).
Qed.

Lemma stripTrailingSlashes_elem e :
  noSlash e = true -> stripTrailingSlashes e = e.
Proof.
  induction e as [|c e IH]; [done|]. cbn [noSlash stripTrailingSlashes].
  intros [Hc He]%andb_true_iff. apply negb_true_iff in Hc.
  by rewrite Hc, IH.
Qed.

Lemma stripTrailingSlashes_app a b :
  stripTrailingSlashes b <> "" ->
  stripTrailingSlashes (a +:+ b) = a +:+ stripTrailingSlashes b.
Proof.
  intros Hb. induction a as [|c a IH]; [by rewrite !append_nil_l|].
  rewrite !append_cons. cbn [stripTrailingSlashes]. rewrite IH.
  assert (String.eqb (a +:+ stripTrailingSlashes b) "" = false) as ->.
  { apply String.eqb_neq. destruct a; [by rewrite append_nil_l|by rewrite append_cons]. }
  by rewrite andb_false_r.
Qed.

(** The base name of a path that ends in a proper file name. *)
Lemma Base_name dir name :
  noSlash name = true -> name <> "" ->
  Base (dir +:+ String Separator name) = name /\ Base name = name.
Proof.
  intros Hs Hne.
  assert (String.eqb name "" = false) as Hne' by (by apply String.eqb_neq).
  assert (stripTrailingSlashes (String Separator name) = String Separator name) as Hstrip.
  { cbn [stripTrailingSlashes]. rewrite stripTrailingSlashes_elem by done.
    by rewrite Hne', andb_false_r. }
  unfold Base. split.
  - assert (String.eqb (dir +:+ String Separator name) "" = false) as ->.
    { apply String.eqb_neq. destruct dir; [by rewrite append_nil_l|by rewrite append_cons]. }
    rewrite stripTrailingSlashes_app by (by rewrite Hstrip).
    rewrite Hstrip, splitSlash_app, (splitSlash_elem name) by done.
    by rewrite last_last, Hne'.
  - rewrite Hne', stripTrailingSlashes_elem, splitSlash_elem by done.
    cbn [List.last]. by rewrite Hne'.
Qed.

Lemma noSlash_app a b : noSlash (a +:+ b) = noSlash a && noSlash b.
Proof.
  induction a as [|c a IH]; [by rewrite append_nil_l|].
  rewrite append_cons. cbn [noSlash]. by rewrite IH, andb_assoc.
Qed.

Lemma replaceFrom_noSlash old new s :
  noSlash new = true -> noSlash s = true ->
  forall skip, noSlash (replaceFrom old new skip s) = true.
Proof.
  intros Hnew. induction s as [|c s IH]; [done|]. cbn [noSlash].
  intros [Hc Hs]%andb_true_iff skip. cbn [replaceFrom].
  destruct skip; [|by apply IH].
  destruct (HasPrefix (String c s) old).
  - rewrite noSlash_app, Hnew. by apply IH.
  - cbn [noSlash]. rewrite Hc. by apply IH.
Qed.

Lemma ReplaceAll_noSlash s old new :
  noSlash new = true -> noSlash s = true -> noSlash (ReplaceAll s old new) = true.
Proof.
  intros Hnew Hs. unfold ReplaceAll. destruct old; [done|].
  by apply replaceFrom_noSlash.
Qed.

Lemma ReplaceAll_nonempty s old c new :
  s <> "" -> ReplaceAll s old (String c new) <> "".
Proof.
  intros Hs. unfold ReplaceAll. destruct old as [|o old]; [done|].
  destruct s as [|x s]; [done|]. cbn [replaceFrom].
  destruct (HasPrefix _ _); [by rewrite append_cons|done].
Qed.

(** The base name of a path is "/" or has no separator. *)
Lemma Base_noSlash p : Base p = "/" \/ noSlash (Base p) = true.
Proof.
  unfold Base. destruct (String.eqb p ""); [by right|].
  set (l := splitSlash (stripTrailingSlashes p)).
  assert (noSlash (List.last l "") = true) as Hlast.
  { pose proof (splitSlash_noSlash (stripTrailingSlashes p)) as Hall. fold l in Hall.
    induction Hall as [|e es He Hes IH]; [done|].
    destruct es; [done|]. apply IH. }
  destruct (String.eqb (List.last l "") ""); [by left|by right].
Qed.

Lemma keyFilename_segment p : noSlash (keyFilename p) = true /\ keyFilename p <> "".
Proof.
  unfold keyFilename. cbv zeta.
  destruct (String.eqb_spec (Base p) "") as [|Hne]; [done|].
  destruct (String.eqb_spec (Base p) ".") as [|_]; [done|].
  destruct (String.eqb_spec (Base p) "/") as [|Hroot]; [done|]. cbn [orb].
  by destruct (Base_noSlash p).
Qed.

Lemma sanitize_segment name :
  noSlash name = true -> name <> "" ->
  noSlash (sanitize name) = true /\ sanitize name <> "".
Proof.
  intros Hs Hne. unfold sanitize. cbv zeta. split.
  - by repeat apply ReplaceAll_noSlash.
  - by repeat apply ReplaceAll_nonempty.
Qed.

Lemma digit_noSlash n : Ascii.eqb (GoTime.digit n) Separator = false.
Proof.
  pose proof (digit_isDigit n) as Hd. unfold isDigit in Hd.
  apply Ascii.eqb_neq. intros Heq. rewrite Heq in Hd. done.
Qed.

Lemma Format_DateOnly_noSlash t : noSlash (GoTime.Format t GoTime.DateOnly) = true.
Proof.
  unfold GoTime.Format, GoTime.pad4, GoTime.pad2.
  repeat (rewrite append_cons || rewrite append_nil_l).
  cbn [noSlash]. by rewrite !digit_noSlash.
Qed.
End BaseName.

(** X19.  The key keeps the file name of a path and nothing of its
    directories: a proper file name gets the same key in whatever
    directory the client names it, so on one day uploads of one name
    into different directories are put under one key. *)
Theorem generateS3Key_ignores_directories (u : S3Uploader) (name dir1 dir2 : string) :
  noSlash name = true ->
  name <> "" ->
  generateS3Key u (dir1 +:+ "/" +:+ name) = generateS3Key u name /\
  generateS3Key u (dir1 +:+ "/" +:+ name) = generateS3Key u (dir2 +:+ "/" +:+ name).
Proof.
  intros Hs Hne.
  assert (forall dir, generateS3Key u (dir +:+ "/" +:+ name) = generateS3Key u name)
    as Hdir.
  { intros dir. unfold generateS3Key, keyFilename. cbv zeta.
    destruct (Base_name dir name Hs Hne) as [Hd Hn].
    change ("/" +:+ name) with (String GoPath.Separator name).
    by rewrite Hd, Hn. }
  by rewrite !Hdir.
Qed.

Lemma generateS3Key_ignores_directories_witness :
  let u := NewS3Uploader "test-bucket" "" "" (fun _ => mkTime 2023 12 25 10 30 0) in
  generateS3Key u ("/uploads/2023" +:+ "/" +:+ "report.txt")
    = generateS3Key u "report.txt" /\
  generateS3Key u ("/uploads/2023" +:+ "/" +:+ "report.txt")
    = generateS3Key u ("/uploads/2024" +:+ "/" +:+ "report.txt").
Proof.
  cbv zeta. apply generateS3Key_ignores_directories; [reflexivity|discriminate].
Defined.

(** X20.  The path of a request cannot add levels to a key: the file segment
    of every key is not empty and holds no separator, so without a bucket
    prefix the key has exactly two elements, the date and the segment. *)
Theorem generateS3Key_segments (u : S3Uploader) (filePath : string) :
  let date := GoTime.Format (GoTime.UTC (timeFunc u tt)) GoTime.DateOnly in
  let segment := sanitize (keyFilename filePath) in
  noSlash segment = true /\
  segment <> "" /\
  (bucketPrefix u = "" ->
   GoPath.splitSlash (generateS3Key u filePath) = [date; segment]).
Proof.
  cbv zeta.
  destruct (keyFilename_segment filePath) as [Hs Hne].
  destruct (sanitize_segment _ Hs Hne) as [Hs' Hne'].
  split_and!; [done|done|].
  intros Hprefix. unfold generateS3Key. cbv zeta. rewrite Hprefix. cbn [negb String.eqb].
  change ("/" +:+ sanitize (keyFilename filePath))
    with (String GoPath.Separator (sanitize (keyFilename filePath))).
  rewrite splitSlash_sep by apply Format_DateOnly_noSlash.
  by rewrite splitSlash_elem.
Qed.

(** ** Channels and their requests (main.go, [handleChannel] and
       [handleConnection]) *)

Section Channels.
Variables (h : SFTPHandler) (remote : Addr) (permissions : option Permissions).

Lemma handleChannel_passedOver req rest :
  passedOver req = true ->
  handleChannel h remote permissions (req :: rest)
    = (false :: fst (handleChannel h remote permissions rest),
       snd (handleChannel h remote permissions rest)).
Proof.
  unfold passedOver, asksSFTP, tooShort. cbn [handleChannel].
  destruct (String.eqb (ReqType req) "subsystem"); cbn [andb negb].
  - destruct (Nat.ltb_spec (length (Payload req)) 4) as [Hlt|Hge];
      [by rewrite andb_false_r|].
    destruct (Nat.leb_spec 4 (length (Payload req))); [|lia]. cbn [andb negb].
    rewrite andb_true_r. intros ->%negb_true_iff.
    by destruct (handleChannel h remote permissions rest).
  - intros _. by destruct (handleChannel h remote permissions rest).
Qed.

Lemma handleChannel_prefix pre rest :
  Forall (fun req => passedOver req = true) pre ->
  handleChannel h remote permissions (pre ++ rest)
    = (replicate (length pre) false ++ fst (handleChannel h remote permissions rest),
       snd (handleChannel h remote permissions rest)).
Proof.
  induction 1 as [|req pre Hreq Hpre IH].
  { cbn. by destruct (handleChannel h remote permissions rest). }
  cbn [app]. rewrite handleChannel_passedOver by done. by rewrite IH.
Qed.
End Channels.



(** X22.  A subsystem request with a payload of fewer than four bytes, read
    before any request that names the SFTP subsystem, makes
    [handleChannel] panic in the slice expression [req.Payload[4:]]: the
    requests before it were refused, and it gets no reply. *)
Theorem handleChannel_short_payload_panics (h : SFTPHandler) (remote : Addr)
    (permissions : option Permissions) (pre post : list sshRequest)
    (req : sshRequest) :
  Forall (fun req => passedOver req = true) pre ->
  tooShort req = true ->
  handleChannel h remote permissions (pre ++ req :: post)
    = (replicate (length pre) false, Panic "slice bounds out of range").
Proof.
  intros Hpre Hreq. rewrite handleChannel_prefix by done. cbn [handleChannel fst snd].
  unfold tooShort in Hreq. apply andb_true_iff in Hreq as [-> ->].
  by rewrite app_nil_r.
Qed.

Lemma handleChannel_short_payload_panics_witness :
  let pre := [mkSSHRequest "env" []] in
  handleChannel demoHandler (TCPAddr "127.0.0.1" 50000) None
                (pre ++ mkSSHRequest "subsystem" [] :: [])
    = (replicate (length pre) false, Panic "slice bounds out of range").
Proof.
  cbv zeta. apply handleChannel_short_payload_panics.
  - repeat constructor.
  - reflexivity.
Defined.

(** X23.  Who is served on a connection.  A session handler is served on a
    channel only when the handshake succeeded and left permissions, the
    channel is of type "session" and was accepted; the handler then holds
    the address of the peer and the identifier, secret and account of
    these permissions, and the last reply on the channel was the
    acceptance. *)
Theorem handleConnection_serves_sessions (h : SFTPHandler) (remote : Addr)
    (handshake : error + option Permissions * list NewChannel) (i : nat)
    (replies : list bool) (sh : SessionSFTPHandler) :
  handleConnection h remote handshake !! i
    = Some (Handled replies (Ok (ServedSFTP (Some sh)))) ->
  exists perms chans newChannel requests,
    handshake = inr (Some perms, chans) /\
    chans !! i = Some newChannel /\
    ChannelType newChannel = "session" /\
    Accept newChannel = inr requests /\
    sh = mkSessionSFTPHandler h (getClientIP remote)
           (extension perms "aws_access_key_id")
           (extension perms "aws_secret_access_key")
           (extension perms "aws_account_id") /\
    last replies = Some true.
Proof.
  unfold handleConnection. destruct handshake as [e|[permissions chans]].
  { by rewrite lookup_nil. }
  change (List.map ?f chans) with (f <$> chans). rewrite list_lookup_fmap.
  destruct (chans !! i) as [newChannel|] eqn:Hi; [|done]. cbn [fmap option_fmap option_map].
  destruct (String.eqb_spec (ChannelType newChannel) "session") as [Htype|]; [|done].
  cbn [negb]. destruct (Accept newChannel) as [e|requests] eqn:Hacc; [done|].
  destruct (handleChannel h remote permissions requests) as [replies' r] eqn:Hch.
  intros [= -> ->].
  assert (exists sh', handleSFTP h remote permissions = Some sh' /\ sh = sh' /\
                      last replies = Some true) as (sh' & Hsh & -> & Hlast).
  { clear Hacc Hi. revert replies Hch.
    induction requests as [|req rest IH]; intros replies Hch; [done|].
    cbn [handleChannel] in Hch.
    destruct (String.eqb (ReqType req) "subsystem").
    - destruct (length (Payload req) <? 4)%nat; [done|].
      destruct (String.eqb _ "sftp").
      + injection Hch as <- Hs. by exists sh.
      + destruct (handleChannel h remote permissions rest) as [replies' r'].
        injection Hch as <- ->. destruct (IH replies' eq_refl) as (sh' & ? & ? & Hl).
        exists sh'. split_and!; [done|done|].
        destruct replies'; [done|]. by rewrite last_cons, Hl.
    - destruct (handleChannel h remote permissions rest) as [replies' r'].
      injection Hch as <- ->. destruct (IH replies' eq_refl) as (sh' & ? & ? & Hl).
      exists sh'. split_and!; [done|done|].
      destruct replies'; [done|]. by rewrite last_cons, Hl. }
  unfold handleSFTP in Hsh. destruct permissions as [perms|]; [|done].
  injection Hsh as <-. by exists perms, chans, newChannel, requests.
Qed.

Lemma handleConnection_serves_sessions_witness :
  exists perms chans newChannel requests,
    demoHandshake = inr (Some perms, chans) /\
    chans !! 1%nat = Some newChannel /\
    ChannelType newChannel = "session" /\
    Accept newChannel = inr requests /\
    mkSessionSFTPHandler demoHandler "127.0.0.1" "test-key" "s3" "123456789012"
      = mkSessionSFTPHandler demoHandler (getClientIP (RemoteAddr demoConn))
          (extension perms "aws_access_key_id")
          (extension perms "aws_secret_access_key")
          (extension perms "aws_account_id") /\
    last [false; true] = Some true.
Proof.
  apply (handleConnection_serves_sessions demoHandler (RemoteAddr demoConn)
           demoHandshake 1%nat [false; true]
           (mkSessionSFTPHandler demoHandler "127.0.0.1" "test-key" "s3" "123456789012")).
  vm_compute. reflexivity.
Defined.

(** ** Uploads over time *)

Section Grow.
Variables (aws : AWS) (h : SFTPHandler).

Lemma writeBuffer_grows maxFileSize d p off :
  (length d <= length (snd (writeBuffer maxFileSize d p off)))%nat.
Proof.
  unfold writeBuffer. cbv zeta.
  destruct (_ >? _); [done|].
  set (d' := if Z.of_nat (length d) <? _ then _ else d).
  assert (length d <= length d')%nat as Hd'.
  { unfold d'. destruct (Z.ltb_spec (Z.of_nat (length d))
                           (wrap64 (off + Z.of_nat (length p)))); [|done].
    rewrite length_copy. unfold make. rewrite length_replicate. lia. }
  destruct (_ || _); [done|]. cbn [snd].
  destruct (Z.ltb_spec off 0), (Z.ltb_spec (Z.of_nat (length d')) off);
    rewrite length_app, length_take, length_copy, length_drop; lia.
Qed.

Lemma exec_grows op st u up :
  uploads st !! u = Some up ->
  exists up',
    uploads (exec aws h st op) !! u = Some up' /\
    path up' = path up /\ clientIP up' = clientIP up /\
    accessKey up' = accessKey up /\ secretKey up' = secretKey up /\
    (length (data up) <= length (data up'))%nat.
Proof.
  intros Hu.
  assert (path up = path up /\ clientIP up = clientIP up /\
          accessKey up = accessKey up /\ secretKey up = secretKey up /\
          (length (data up) <= length (data up))%nat) as Hrefl by done.
  destruct op as [sh r|w p off|w]; cbn [exec].
  - unfold SessionFilewrite, storeUpload. repeat case_match; eauto.
    simplify_eq. cbn [snd uploads]. exists up. split; [|done].
    rewrite lookup_insert_ne; [done|].
    intros <-. apply (is_fresh (dom (uploads st))), elem_of_dom. eauto.
  - unfold WriteAt.
    destruct (writers st !! w) as [fw|]; [|eauto].
    destruct (uploads st !! upload fw) as [up0|] eqn:Hu0; [|eauto].
    destruct (closed fw); [eauto|].
    pose proof (writeBuffer_grows (MaxFileSize (config h)) (data up0) p off) as Hlen.
    destruct (writeBuffer _ _ _ _) as [res data']. cbn [snd uploads] in *.
    destruct (decide (upload fw = u)) as [<-|Hne].
    + rewrite lookup_insert_eq. eexists. split; [done|].
      by simplify_eq.
    + rewrite lookup_insert_ne by done. eauto.
  - unfold Close. repeat case_match; eauto.
Qed.
End Grow.

(** X24.  No operation takes anything from an upload.  Over any operations of
    any sessions an upload of the store stays in the store with its path,
    its client address and its credentials, and with a buffer at least as
    long as before: no write truncates, and no close empties a buffer. *)
Theorem uploads_never_shrink (aws : AWS) (h : SFTPHandler) (ops : list Op)
    (st : Store) (u : addr) (up : FileUpload) :
  uploads st !! u = Some up ->
  exists up',
    uploads (execAll aws h st ops) !! u = Some up' /\
    path up' = path up /\ clientIP up' = clientIP up /\
    accessKey up' = accessKey up /\ secretKey up' = secretKey up /\
    (length (data up) <= length (data up'))%nat.
Proof.
  revert st up. induction ops as [|op ops IH]; intros st up Hu.
  { exists up. by split_and!. }
  cbn [execAll fold_left].
  destruct (exec_grows aws h op st u up Hu) as (up1 & Hu1 & Hp & Hc & Hk & Hs & Hl).
  destruct (IH _ _ Hu1) as (up2 & Hu2 & Hp2 & Hc2 & Hk2 & Hs2 & Hl2).
  exists up2. split_and!; [done|congruence..|lia].
Qed.

Lemma uploads_never_shrink_witness :
  exists up',
    uploads (execAll demoAWS demoHandler demoStore
               [OpWriteAt 0%nat [x01; x02] 3; OpClose 0%nat]) !! 0%nat = Some up' /\
    path up' = path demoUpload /\ clientIP up' = clientIP demoUpload /\
    accessKey up' = accessKey demoUpload /\ secretKey up' = secretKey demoUpload /\
    (length (data demoUpload) <= length (data up'))%nat.
Proof.
  apply (uploads_never_shrink demoAWS demoHandler
           [OpWriteAt 0%nat [x01; x02] 3; OpClose 0%nat] demoStore 0%nat demoUpload).
  vm_compute. reflexivity.
Defined.

(** ** Command dispatch, continued ([Filecmd], [Fileread], [Fileinfo],
       [Filelist]) *)


(** ** The counter of the supervisor ([acceptConnections],
       [handleConnection]) *)

Section Counter.

Lemma filter_out_one (c : Conn) (l : list Conn) :
  NoDup l -> c ∈ l ->
  S (length (List.filter (fun x => negb (Nat.eqb x c)) l)) = length l.
Proof.
  induction 1 as [|x l Hx Hl IH]; [by intros ?%elem_of_nil|].
  intros [->|Hc]%elem_of_cons; cbn [List.filter length].
  - rewrite Nat.eqb_refl. cbn [negb]. f_equal.
    f_equal. apply forallb_filter_id, forallb_forall.
    intros y Hy%list_elem_of_In. apply negb_true_iff, Nat.eqb_neq. by intros ->.
  - destruct (Nat.eqb_spec x c) as [->|Hne]; [done|]. cbn [negb length]. by rewrite IH.
Qed.

Lemma run_counts (es : list Event) :
  forall s,
    activeConns s = Z.of_nat (length (serving s)) ->
    NoDup (serving s) ->
    NoDup (acceptedConns es) ->
    (forall c, c ∈ serving s -> c ∉ acceptedConns es) ->
    activeConns (run s es) = Z.of_nat (length (serving (run s es))).
Proof.
  induction es as [|e es IH]; intros s Hcount Hnd Hacc Hnew; [done|].
  change (run s (e :: es)) with (run (step s e) es).
  destruct e as [c| |c|]; cbn [step acceptedConns omap list_omap] in *.
  - apply NoDup_cons in Hacc as [Hc Hacc].
    unfold acceptConnections. destruct (cancelled s).
    { apply IH; try done. intros c' Hc' Hin. apply (Hnew c' Hc'). by right. }
    apply IH; cbn [activeConns serving length]; try done.
    + lia.
    + apply NoDup_cons. split; [|done]. intros Hin. apply (Hnew c Hin). by left.
    + intros c' [->|Hc']%elem_of_cons; [done|].
      intros Hin. apply (Hnew c' Hc'). by right.
  - unfold acceptConnections. destruct (cancelled s); by apply IH.
  - case_bool_decide as Hin; [|by apply IH].
    unfold handleConnectionReturn. apply IH; cbn [activeConns serving]; try done.
    + pose proof (filter_out_one c (serving s) Hnd Hin) as Hone.
      unfold Conn in *. lia.
    + by apply NoDup_ListNoDup, List.NoDup_filter, NoDup_ListNoDup.
    + intros c' Hc'. apply Hnew.
      apply list_elem_of_In, filter_In in Hc' as [Hc' _]. by apply list_elem_of_In.
  - by apply IH.
Qed.
End Counter.

(** X26.  The counter of the wait group is the number of connection handlers
    that have started and not returned, whatever is accepted, returns or
    is cancelled (a connection is a new object each time: none is
    accepted twice); it is zero, so that the wait of the shutdown ends,
    exactly when no handler runs. *)
Theorem activeConns_counts_handlers (cfg : Config) (es : list Event) :
  NoDup (acceptedConns es) ->
  let s := run (mkSFTPServer cfg 0 [] false) es in
  activeConns s = Z.of_nat (length (serving s)) /\
  (activeConns s = 0 <-> serving s = []).
Proof.
  intros Hacc. cbv zeta.
  assert (activeConns (run (mkSFTPServer cfg 0 [] false) es)
          = Z.of_nat (length (serving (run (mkSFTPServer cfg 0 [] false) es)))) as Hc.
  { apply run_counts; cbn; try done; [constructor|by intros ? ?%elem_of_nil]. }
  split; [done|]. rewrite Hc.
  destruct (serving _); cbn [length]; split; try done; lia.
Qed.

Lemma activeConns_counts_handlers_witness :
  let s := run (mkSFTPServer (testConfig "/uploads") 0 [] false)
               [Accepted 1%nat; Accepted 2%nat; Returned 1%nat; Cancel; Returned 2%nat] in
  activeConns s = Z.of_nat (length (serving s)) /\
  (activeConns s = 0 <-> serving s = []).
Proof.
  cbv zeta. apply activeConns_counts_handlers.
  cbn. apply NoDup_cons_2; [by intros [=]%list_elem_of_singleton|].
  apply NoDup_singleton.
Defined.

(** ** The key of the earlier uploader (s3uploader.go) *)

Section LegacyKey.
Import GoPath.

Lemma pad2_noSlash n : noSlash (GoTime.pad2 n) = true.
Proof. unfold GoTime.pad2. cbn [noSlash]. by rewrite !digit_noSlash. Qed.

Lemma pad4_noSlash n : noSlash (GoTime.pad4 n) = true.
Proof. unfold GoTime.pad4. cbn [noSlash]. by rewrite !digit_noSlash, pad2_noSlash. Qed.

Lemma Legacy_key_elems now u filePath clientIP accessKeyID :
  splitSlash (Legacy.generateS3Key now u filePath clientIP accessKeyID)
    = GoTime.pad4 (year now) :: GoTime.pad2 (month now) :: GoTime.pad2 (day now)
      :: splitSlash (GoTime.pad2 (hour now) +:+ "-" +:+ GoTime.pad2 (minute now)
                       +:+ "-" +:+ GoTime.pad2 (second now))
      ++ splitSlash clientIP ++ splitSlash accessKeyID
      ++ [sanitize (keyFilename filePath)].
Proof.
  unfold Legacy.generateS3Key, Legacy.formatStamp, GoTime.UTC. cbv zeta.
  set (hms := GoTime.pad2 (hour now) +:+ _).
  set (seg := sanitize _).
  change (splitSlash
            ((GoTime.pad4 (year now) +:+ String Separator
                (GoTime.pad2 (month now) +:+ String Separator
                   (GoTime.pad2 (day now) +:+ String Separator hms)))
             +:+ String Separator
                   (clientIP +:+ String Separator
                      (accessKeyID +:+ String Separator seg)))
          = GoTime.pad4 (year now) :: GoTime.pad2 (month now) :: GoTime.pad2 (day now)
            :: splitSlash hms ++ splitSlash clientIP ++ splitSlash accessKeyID ++ [seg]).
  rewrite !splitSlash_app.
  rewrite (splitSlash_elem (GoTime.pad4 _)) by apply pad4_noSlash.
  rewrite !(splitSlash_elem (GoTime.pad2 _)) by apply pad2_noSlash.
  rewrite (splitSlash_elem seg).
  - cbn [app]. by rewrite <- ?app_assoc.
  - apply sanitize_segment; apply keyFilename_segment.
Qed.
End LegacyKey.

(** X27.  The key of the earlier uploader has seven elements when the client
    address and the identifier hold no separator: year, month, day, time
    of day, address, identifier, and the file segment that the later
    uploader derives as well.  So keys of different clients differ, which
    the later key, made of the date and the file segment alone, does not
    ensure. *)
Theorem Legacy_generateS3Key_layout (now : Time) (u : Legacy.S3Uploader)
    (filePath clientIP accessKeyID : string) :
  noSlash clientIP = true ->
  noSlash accessKeyID = true ->
  GoPath.splitSlash (Legacy.generateS3Key now u filePath clientIP accessKeyID)
    = [GoTime.pad4 (year now); GoTime.pad2 (month now); GoTime.pad2 (day now);
       GoTime.pad2 (hour now) +:+ "-" +:+ GoTime.pad2 (minute now)
         +:+ "-" +:+ GoTime.pad2 (second now);
       clientIP; accessKeyID; sanitize (keyFilename filePath)] /\
  (forall clientIP' accessKeyID',
     noSlash clientIP' = true -> noSlash accessKeyID' = true ->
     Legacy.generateS3Key now u filePath clientIP' accessKeyID'
       = Legacy.generateS3Key now u filePath clientIP accessKeyID ->
     clientIP' = clientIP /\ accessKeyID' = accessKeyID).
Proof.
  intros Hip Hkey.
  assert (forall ip key, noSlash ip = true -> noSlash key = true ->
            GoPath.splitSlash (Legacy.generateS3Key now u filePath ip key)
            = [GoTime.pad4 (year now); GoTime.pad2 (month now); GoTime.pad2 (day now);
               GoTime.pad2 (hour now) +:+ "-" +:+ GoTime.pad2 (minute now)
                 +:+ "-" +:+ GoTime.pad2 (second now);
               ip; key; sanitize (keyFilename filePath)]) as Hlayout.
  { intros ip key Hi Hk. rewrite Legacy_key_elems.
    rewrite (splitSlash_elem ip), (splitSlash_elem key) by done.
    rewrite splitSlash_elem; [done|].
    rewrite !noSlash_app, !pad2_noSlash. done. }
  split; [by apply Hlayout|].
  intros ip' key' Hi' Hk' Heq.
  apply (f_equal GoPath.splitSlash) in Heq.
  rewrite !Hlayout in Heq by done. by simplify_eq.
Qed.

Lemma Legacy_generateS3Key_layout_witness :
  let now := mkTime 2023 12 25 10 30 0 in
  let u := Legacy.NewS3Uploader "test-bucket" in
  GoPath.splitSlash (Legacy.generateS3Key now u "/uploads/my file.txt" "192.168.1.1"
                                          "AKIAEXAMPLE")
    = [GoTime.pad4 (year now); GoTime.pad2 (month now); GoTime.pad2 (day now);
       GoTime.pad2 (hour now) +:+ "-" +:+ GoTime.pad2 (minute now)
         +:+ "-" +:+ GoTime.pad2 (second now);
       "192.168.1.1"; "AKIAEXAMPLE"; sanitize (keyFilename "/uploads/my file.txt")] /\
  (forall clientIP' accessKeyID',
     noSlash clientIP' = true -> noSlash accessKeyID' = true ->
     Legacy.generateS3Key now u "/uploads/my file.txt" clientIP' accessKeyID'
       = Legacy.generateS3Key now u "/uploads/my file.txt" "192.168.1.1" "AKIAEXAMPLE" ->
     clientIP' = "192.168.1.1" /\ accessKeyID' = "AKIAEXAMPLE").
Proof.
  cbv zeta. apply Legacy_generateS3Key_layout; reflexivity.
Defined.

(** The key of the earlier uploader for a path of the tests. *)
Example Legacy_generateS3Key_demo :
  Legacy.generateS3Key (mkTime 2023 12 25 10 30 0) (Legacy.NewS3Uploader "test-bucket")
                       "/uploads/my file.txt" "192.168.1.1" "AKIAEXAMPLE"
    = "2023/12/25/10-30-00/192.168.1.1/AKIAEXAMPLE/my_file.txt".
Proof. vm_compute. reflexivity. Qed.
